(** * Commutation values, present values and premium schedule

    A shallow embedding of the actuarial engine of the repository
    ([commvalues.py], [presentvalues.py], [premium_and_progress_values.py]
    and the premium functions of [outfunc.py]) together with the properties
    its specification states about it.

    Conventions of the embedding.
    - A Python [float] is an exact rational number ([Qc], rationals in lowest
      terms, so that equal numbers are equal terms).  The binary64 rounding
      of each operation is outside the model, and a test against zero
      ([fdiv], the guard on [kVx_pu]) is a test on the exact value.
    - The decimal rounding that the program performs itself, [_excel_round],
      is modelled on the exact value and as a total function.  The source
      rounds the decimal text [str(value)] of the binary64 value, and
      [decimal] raises [InvalidOperation] once the rounded number needs more
      than the 28 significant digits of its context; the model has no such
      case, so a builder that returns in the model can still raise in the
      program when its numbers get that long.
    - A Python [int] is a [Z]; a [str] is a [string] of ASCII characters, on
      which [strip] and [upper] are Python's.
    - A Python exception is a value of [exn]; a function that may raise
      returns a [Result].
    - The module-level dictionary [cache] is threaded explicitly.
    - [constants.py] is not part of the sources at hand: its values are the
      fields of a record the whole development is parameterised by. *)

From Stdlib Require Import QArith Qcanon Qround Qabs Lqa Lia ZArith Ascii String.
From stdpp Require Import base option list gmap strings pretty.

Local Open Scope Z_scope.
Local Open Scope Qc_scope.

(** ** Exceptions and fallible computations *)

Inductive exn : Type :=
  | FileNotFoundError (msg : string)
  | ValueError (msg : string)
  | KeyError (msg : string)
  | IndexError (msg : string)
  | TypeError (msg : string)
  | ZeroDivisionError (msg : string).

Inductive Result (A : Type) : Type :=
  | Ok (a : A)
  | Err (e : exn).
Arguments Ok {A} a.
Arguments Err {A} e.

Definition rbind {A B : Type} (m : Result A) (k : A -> Result B) : Result B :=
  match m with
  | Ok a => k a
  | Err e => Err e
  end.

Notation "'let?' x ':=' m 'in' k" := (rbind m (fun x => k))
  (at level 10, x name, m at level 100, k at level 200,
   format "'[v' 'let?'  x  ':='  m  'in' '/' k ']'").

(** [for x in xs: s = body(x, s)] where the body may raise. *)
Fixpoint for_each {S : Type} (xs : list Z) (body : Z -> S -> Result S) (s : S)
  : Result S :=
  match xs with
  | [] => Ok s
  | x :: xs' => let? s' := body x s in for_each xs' body s'
  end.

(** ** Numbers *)

Definition Qc_of_Z (z : Z) : Qc := Q2Qc (inject_Z z).

Definition Qc_eqb (x y : Qc) : bool := Qeq_bool x y.
Definition Qc_leb (x y : Qc) : bool := Qle_bool x y.
Definition Qc_ltb (x y : Qc) : bool := negb (Qle_bool y x).

(** Python's [a / b] on floats: raises on a zero divisor. *)
Definition fdiv (a b : Qc) : Result Qc :=
  if Qc_eqb b 0 then Err (ZeroDivisionError "float division by zero")
  else Ok (a / b).

(** Python's [min] and [max] on two floats. *)
Definition fmin (a b : Qc) : Qc := if Qc_ltb b a then b else a.
Definition fmax (a b : Qc) : Qc := if Qc_ltb a b then b else a.

(** [10 ** e] as an exact number, for any integer exponent. *)
Definition pow10 (e : Z) : Qc :=
  if (0 <=? e)%Z then Qc_of_Z (10 ^ e) else / Qc_of_Z (10 ^ (- e)).

(** Nearest integer, ties away from zero ([ROUND_HALF_UP] of [decimal]). *)
Definition half_up (x : Qc) : Z :=
  if Qc_leb 0 x then Qfloor (x + Q2Qc (1 # 2))
  else (- Qfloor (- x + Q2Qc (1 # 2)))%Z.

(** [_excel_round(value, digits)]: [quantize] to the quantum
    [Decimal("1").scaleb(-digits)], half away from zero. *)
Definition _excel_round (value : Qc) (digits : Z) : Qc :=
  let quant := pow10 (- digits) in
  Qc_of_Z (half_up (value / quant)) * quant.

(** ** Lists indexed the Python way *)

Definition norm_index {A : Type} (vec : list A) (i : Z) : option nat :=
  let n := Z.of_nat (length vec) in
  let j := if (i <? 0)%Z then (i + n)%Z else i in
  if ((0 <=? j) && (j <? n))%Z then Some (Z.to_nat j) else None.

(** [vec[i]] *)
Definition getitem (vec : list Qc) (i : Z) : Result Qc :=
  match norm_index vec i with
  | Some j =>
      match vec !! j with
      | Some v => Ok v
      | None => Err (IndexError "list index out of range")
      end
  | None => Err (IndexError "list index out of range")
  end.

(** [vec[i] = v] *)
Definition setitem (vec : list Qc) (i : Z) (v : Qc) : Result (list Qc) :=
  match norm_index vec i with
  | Some j => Ok (<[j := v]> vec)
  | None => Err (IndexError "list assignment index out of range")
  end.

(** [range(lo, hi)] *)
Definition range (lo hi : Z) : list Z := seqZ lo (hi - lo).

(** [range(hi, lo, -1)]: hi, hi-1, ..., lo+1 *)
Definition range_down (hi lo : Z) : list Z := reverse (seqZ (lo + 1) (hi - lo)).

(** ** Strings *)

(** The characters [str.strip()] removes, within the ASCII range. *)
Definition is_space (a : ascii) : bool :=
  let c := nat_of_ascii a in
  ((9 <=? c) && (c <=? 13) || (28 <=? c) && (c <=? 32))%nat.

Fixpoint lstrip (s : string) : string :=
  match s with
  | EmptyString => EmptyString
  | String a s' => if is_space a then lstrip s' else s
  end.

Definition strip (s : string) : string :=
  String.rev (lstrip (String.rev (lstrip s))).

Definition upper_ascii (a : ascii) : ascii :=
  let c := nat_of_ascii a in
  if ((97 <=? c) && (c <=? 122))%nat then ascii_of_nat (c - 32) else a.

(** [str.upper()], within the ASCII range. *)
Fixpoint upper (s : string) : string :=
  match s with
  | EmptyString => EmptyString
  | String a s' => String (upper_ascii a) (upper s')
  end.

(** [str(i)] for an [int]. *)
Definition str_int (i : Z) : string := pretty i.

(** ** The process-wide cache

    [cache] is the module-level [Optional[Dict[str, float]]] of
    [commvalues.py], [None] until [InitializeCache] runs.  [builder_calls]
    is instrumentation only: it counts how often a memoized accessor has
    called its vector builder, and no modelled function reads it. *)

Record World : Type := {
  cache : option (gmap string Qc);
  builder_calls : nat
}.

(** A computation over a mutable state [St] that may raise; an exception
    leaves the updates made so far in place, as in Python. *)
Definition SM (St A : Type) : Type := St -> Result A * St.

Definition mret {St A : Type} (a : A) : SM St A := fun w => (Ok a, w).

Definition mbind {St A B : Type} (m : SM St A) (k : A -> SM St B) : SM St B :=
  fun w =>
    match m w with
    | (Ok a, w') => k a w'
    | (Err e, w') => (Err e, w')
    end.

Definition lift {St A : Type} (r : Result A) : SM St A := fun w => (r, w).

Notation "'let!' x ':=' m 'in' k" := (mbind m (fun x => k))
  (at level 10, x name, m at level 100, k at level 200,
   format "'[v' 'let!'  x  ':='  m  'in' '/' k ']'").

(** [for x in xs: s = body(x, s)] for a body that uses the state. *)
Fixpoint for_eachM {St S : Type} (xs : list Z) (body : Z -> S -> SM St S)
    (s : S) : SM St S :=
  match xs with
  | [] => mret s
  | x :: xs' => let! s' := body x s in for_eachM xs' body s'
  end.

(** The computations of [commvalues.py] and of the modules built on it. *)
Abbreviation M := (SM World).

Definition InitializeCache : M unit :=
  fun w => (Ok tt, {| cache := Some ∅; builder_calls := builder_calls w |}).

Definition _ensure_cache : M unit :=
  fun w =>
    match cache w with
    | None => InitializeCache w
    | Some _ => (Ok tt, w)
    end.

Definition none_type_error : exn :=
  TypeError "'NoneType' object does not support this operation".

(** [key in cache] *)
Definition cache_contains (key : string) : M bool :=
  fun w =>
    match cache w with
    | Some c => (Ok (bool_decide (is_Some (c !! key))), w)
    | None => (Err none_type_error, w)
    end.

(** [cache[key]] *)
Definition cache_get (key : string) : M Qc :=
  fun w =>
    match cache w with
    | Some c =>
        match c !! key with
        | Some v => (Ok v, w)
        | None => (Err (KeyError key), w)
        end
    | None => (Err none_type_error, w)
    end.

(** [cache[key] = value] *)
Definition cache_set (key : string) (value : Qc) : M unit :=
  fun w =>
    match cache w with
    | Some c =>
        (Ok tt, {| cache := Some (<[key := value]> c);
                   builder_calls := builder_calls w |})
    | None => (Err none_type_error, w)
    end.

(** A call of a vector builder from an accessor, counted. *)
Definition call_builder (build : Result (list Qc)) : M (list Qc) :=
  fun w => (build, {| cache := cache w; builder_calls := S (builder_calls w) |}).

(** ** The value objects of [premium_and_progress_values.py]

    Each dataclass is a record in a module of its own, so that the fields
    keep their short names. *)

Module Policy.
Record PolicyInputs : Type := {
  x : Z;
  sex : string;
  n : Z;
  t : Z;
  sum_insured : Qc;
  pay_freq : Z
}.
End Policy.

Module Tariff.
Record TariffInputs : Type := {
  interest_rate : Qc;
  mortality_table : string;
  alpha : Qc;
  beta1 : Qc;
  gamma1 : Qc;
  gamma2 : Qc;
  gamma3 : Qc;
  k : Qc;
  modal_surcharge : Qc
}.
End Tariff.

Module Lim.
Record Limits : Type := {
  min_age_flex : Z;
  min_term_flex : Z
}.
End Lim.

(** The dictionary [calc_premium_calculation] returns. *)
Module Prem.
Record Block : Type := {
  NormGrossAnnualPrem : Qc;
  GrossAnnualPrem : Qc;
  GrossModalPrem : Qc;
  Pxt : Qc
}.
End Prem.

(** One dictionary of the list [calc_progression_values] returns. *)
Module Row.
Record Progression : Type := {
  k : Z;
  Axn : Qc;
  axn : Qc;
  axt : Qc;
  kVx_pp : Qc;
  kDRx_pp : Qc;
  kVx_pu : Qc;
  kVx_MRV : Qc;
  Flex_phase : Z;
  Surrender_deduction : Qc;
  Surrender_value : Qc;
  SumInsured_pu : Qc
}.
End Row.

(** ** Constants and the mortality table store *)

(** The names [commvalues.py] imports from [constants.py]. *)
Record constants : Type := {
  ROUND_LX : Z;
  ROUND_TX : Z;
  ROUND_DX : Z;
  ROUND_CX : Z;
  ROUND_NX : Z;
  ROUND_MX : Z;
  ROUND_RX : Z;
  MAX_AGE : Z
}.

(** [_qx_tables]: column name, e.g. ["DAV1994_T_M"], to the rates by age. *)
Abbreviation qx_tables := (gmap string (list Qc)).

Section Engine.

(** The values of [constants.py]. *)
Variable K : constants.

(** What [_load_mortality_tables_if_needed] leaves in [_qx_tables]: the
    table file is read on the first access and never again, so for a given
    file the load either fails every time with the same exception or
    provides the same dictionary to every call. *)
Variable mortality_xml : Result qx_tables.

(** [str(f)] for a [float], as the f-string of [BuildCacheKey] renders it. *)
Variable float_str : Qc -> string.

Definition _load_mortality_tables_if_needed : Result qx_tables :=
  mortality_xml.

Definition Act_qx (Age : Z) (Sex TableId : string)
    (BirthYear RetirementAge Layer : Z) : Result Qc :=
  let? _qx_tables := _load_mortality_tables_if_needed in
  let sex := upper (strip Sex) in
  let sex := if negb (String.eqb sex "M") then "F"%string else sex in
  let table_id := upper (strip TableId) in
  if String.eqb table_id "DAV1994_T" || String.eqb table_id "DAV2008_T" then
    let table_vector := (table_id +:+ "_" +:+ sex)%string in
    match _qx_tables !! table_vector with
    | None =>
        Err (KeyError ("Mortality table column not found in XML: "
                       +:+ table_vector))
    | Some vec =>
        if ((Age <? 0) || (Age >=? Z.of_nat (length vec)))%Z then
          Err (IndexError ("Age " +:+ str_int Age
                           +:+ " out of bounds for table " +:+ table_vector
                           +:+ " (size=" +:+ str_int (Z.of_nat (length vec))
                           +:+ ")"))
        else getitem vec Age
    end
  else Err (ValueError ("Mortality table not implemented: " +:+ TableId)).

Definition end_age_error : exn :=
  ValueError "EndAge must be -1 or a non-negative integer.".

(** [[0.0] * size] *)
Definition zeros (size : Z) : list Qc := replicate (Z.to_nat size) 0.

Definition Vec_lx (EndAge : Z) (Sex TableId : string)
    (BirthYear RetirementAge Layer : Z) : Result (list Qc) :=
  let limit := if (EndAge =? -1)%Z then MAX_AGE K else EndAge in
  if (limit <? 0)%Z then Err end_age_error else
  let vec := zeros (limit + 1) in
  let? vec := setitem vec 0 (Qc_of_Z 1000000) in
  for_each (range 1 (limit + 1)) (fun i vec =>
    let? qx := Act_qx (i - 1) Sex TableId BirthYear RetirementAge Layer in
    let? prev := getitem vec (i - 1) in
    let? vec := setitem vec i (prev * (1 - qx)) in
    let? cur := getitem vec i in
    setitem vec i (_excel_round cur (ROUND_LX K))) vec.

Definition Act_lx (Age : Z) (Sex TableId : string)
    (BirthYear RetirementAge Layer : Z) : Result Qc :=
  let? vec := Vec_lx Age Sex TableId BirthYear RetirementAge Layer in
  getitem vec Age.

Definition Vec_tx (EndAge : Z) (Sex TableId : string)
    (BirthYear RetirementAge Layer : Z) : Result (list Qc) :=
  let limit := if (EndAge =? -1)%Z then MAX_AGE K else EndAge in
  if (limit <? 0)%Z then Err end_age_error else
  let vec := zeros (limit + 1) in
  let? tempLx := Vec_lx limit Sex TableId BirthYear RetirementAge Layer in
  for_each (range 0 limit) (fun i vec =>
    let? a := getitem tempLx i in
    let? b := getitem tempLx (i + 1) in
    let? vec := setitem vec i (a - b) in
    let? cur := getitem vec i in
    setitem vec i (_excel_round cur (ROUND_TX K))) vec.

Definition Act_tx (Age : Z) (Sex TableId : string)
    (BirthYear RetirementAge Layer : Z) : Result Qc :=
  let? vec := Vec_tx Age Sex TableId BirthYear RetirementAge Layer in
  getitem vec Age.

(** [v ** i] for the non-negative integer exponents of the loops. *)
Definition fpow (v : Qc) (i : Z) : Qc := Qcpower v (Z.to_nat i).

Definition Vec_Dx (EndAge : Z) (Sex TableId : string) (InterestRate : Qc)
    (BirthYear RetirementAge Layer : Z) : Result (list Qc) :=
  let limit := if (EndAge =? -1)%Z then MAX_AGE K else EndAge in
  if (limit <? 0)%Z then Err end_age_error else
  let vec := zeros (limit + 1) in
  let? v := fdiv 1 (1 + InterestRate) in
  let? tempLx := Vec_lx limit Sex TableId BirthYear RetirementAge Layer in
  for_each (range 0 (limit + 1)) (fun i vec =>
    let? a := getitem tempLx i in
    let? vec := setitem vec i (a * fpow v i) in
    let? cur := getitem vec i in
    setitem vec i (_excel_round cur (ROUND_DX K))) vec.

Definition Vec_Cx (EndAge : Z) (Sex TableId : string) (InterestRate : Qc)
    (BirthYear RetirementAge Layer : Z) : Result (list Qc) :=
  let limit := if (EndAge =? -1)%Z then MAX_AGE K else EndAge in
  if (limit <? 0)%Z then Err end_age_error else
  let vec := zeros (limit + 1) in
  let? v := fdiv 1 (1 + InterestRate) in
  let? tempTx := Vec_tx limit Sex TableId BirthYear RetirementAge Layer in
  for_each (range 0 limit) (fun i vec =>
    let? a := getitem tempTx i in
    let? vec := setitem vec i (a * fpow v (i + 1)) in
    let? cur := getitem vec i in
    setitem vec i (_excel_round cur (ROUND_CX K))) vec.

(** The backward accumulation shared, line for line, by [Vec_Nx], [Vec_Mx]
    and [Vec_Rx]; [digits] is the rounding constant the loop body names. *)
Definition accumulate_down (temp : list Qc) (digits : Z) : Result (list Qc) :=
  let vec := zeros (MAX_AGE K + 1) in
  let? top := getitem temp (MAX_AGE K) in
  let? vec := setitem vec (MAX_AGE K) top in
  for_each (range_down (MAX_AGE K - 1) (-1)) (fun i vec =>
    let? a := getitem vec (i + 1) in
    let? b := getitem temp i in
    let? vec := setitem vec i (a + b) in
    let? cur := getitem vec i in
    setitem vec i (_excel_round cur digits)) vec.

Definition Vec_Nx (Sex TableId : string) (InterestRate : Qc)
    (BirthYear RetirementAge Layer : Z) : Result (list Qc) :=
  let? tempDx :=
    Vec_Dx (-1) Sex TableId InterestRate BirthYear RetirementAge Layer in
  (* the source rounds with ROUND_DX here: "kept as in original" *)
  accumulate_down tempDx (ROUND_DX K).

Definition Vec_Mx (Sex TableId : string) (InterestRate : Qc)
    (BirthYear RetirementAge Layer : Z) : Result (list Qc) :=
  let? tempCx :=
    Vec_Cx (-1) Sex TableId InterestRate BirthYear RetirementAge Layer in
  accumulate_down tempCx (ROUND_MX K).

Definition Vec_Rx (Sex TableId : string) (InterestRate : Qc)
    (BirthYear RetirementAge Layer : Z) : Result (list Qc) :=
  let? tempMx :=
    Vec_Mx Sex TableId InterestRate BirthYear RetirementAge Layer in
  accumulate_down tempMx (ROUND_RX K).


Definition BuildCacheKey (Kind : string) (Age : Z) (Sex TableId : string)
    (InterestRate : Qc) (BirthYear RetirementAge Layer : Z) : string :=
  (Kind +:+ "_" +:+ str_int Age +:+ "_" +:+ Sex +:+ "_" +:+ TableId
   +:+ "_" +:+ float_str InterestRate +:+ "_" +:+ str_int BirthYear
   +:+ "_" +:+ str_int RetirementAge +:+ "_" +:+ str_int Layer)%string.

(** The body shared, line for line, by the five memoized accessors; they
    differ in the [Kind] of the key and in the builder they call. *)
Definition memoized (Kind : string) (build : Result (list Qc)) (Age : Z)
    (Sex TableId : string) (InterestRate : Qc)
    (BirthYear RetirementAge Layer : Z) : M Qc :=
  let! _ := _ensure_cache in
  let key :=
    BuildCacheKey Kind Age Sex TableId InterestRate BirthYear RetirementAge
      Layer in
  let! hit := cache_contains key in
  if (hit : bool) then cache_get key
  else
    let! vec := call_builder build in
    let! value := lift (getitem vec Age) in
    let! _ := cache_set key value in
    mret value.

Definition Act_Dx (Age : Z) (Sex TableId : string) (InterestRate : Qc)
    (BirthYear RetirementAge Layer : Z) : M Qc :=
  memoized "Dx"
    (Vec_Dx Age Sex TableId InterestRate BirthYear RetirementAge Layer)
    Age Sex TableId InterestRate BirthYear RetirementAge Layer.

Definition Act_Cx (Age : Z) (Sex TableId : string) (InterestRate : Qc)
    (BirthYear RetirementAge Layer : Z) : M Qc :=
  memoized "Cx"
    (Vec_Cx Age Sex TableId InterestRate BirthYear RetirementAge Layer)
    Age Sex TableId InterestRate BirthYear RetirementAge Layer.

Definition Act_Nx (Age : Z) (Sex TableId : string) (InterestRate : Qc)
    (BirthYear RetirementAge Layer : Z) : M Qc :=
  memoized "Nx"
    (Vec_Nx Sex TableId InterestRate BirthYear RetirementAge Layer)
    Age Sex TableId InterestRate BirthYear RetirementAge Layer.

Definition Act_Mx (Age : Z) (Sex TableId : string) (InterestRate : Qc)
    (BirthYear RetirementAge Layer : Z) : M Qc :=
  memoized "Mx"
    (Vec_Mx Sex TableId InterestRate BirthYear RetirementAge Layer)
    Age Sex TableId InterestRate BirthYear RetirementAge Layer.

Definition Act_Rx (Age : Z) (Sex TableId : string) (InterestRate : Qc)
    (BirthYear RetirementAge Layer : Z) : M Qc :=
  memoized "Rx"
    (Vec_Rx Sex TableId InterestRate BirthYear RetirementAge Layer)
    Age Sex TableId InterestRate BirthYear RetirementAge Layer.

(** *** presentvalues.py *)

Definition Act_DeductionTerm (k : Z) (InterestRate : Qc) : Result Qc :=
  let deduction := 0 in
  if (k >? 0)%Z then
    let? deduction :=
      for_each (range 0 k) (fun l deduction =>
        let? lk := fdiv (Qc_of_Z l) (Qc_of_Z k) in
        let? term := fdiv lk (1 + lk * InterestRate) in
        Ok (deduction + term)) deduction in
    fdiv (deduction * (1 + InterestRate)) (Qc_of_Z k)
  else Ok deduction.

Definition Act_axn_k (Age n : Z) (Sex TableId : string) (InterestRate : Qc)
    (k : Z) (BirthYear RetirementAge Layer : Z) : M Qc :=
  if (k >? 0)%Z then
    let! dx_age :=
      Act_Dx Age Sex TableId InterestRate BirthYear RetirementAge Layer in
    let! dx_agen :=
      Act_Dx (Age + n) Sex TableId InterestRate BirthYear RetirementAge Layer in
    let! nx_age :=
      Act_Nx Age Sex TableId InterestRate BirthYear RetirementAge Layer in
    let! nx_agen :=
      Act_Nx (Age + n) Sex TableId InterestRate BirthYear RetirementAge Layer in
    let! a := lift (fdiv (nx_age - nx_agen) dx_age) in
    let! d := lift (Act_DeductionTerm k InterestRate) in
    let! r := lift (fdiv dx_agen dx_age) in
    mret (a - d * (1 - r))
  else mret 0.

Definition act_nGrAx (Age n : Z) (Sex TableId : string) (InterestRate : Qc)
    (BirthYear RetirementAge Layer : Z) : M Qc :=
  let! mx_age :=
    Act_Mx Age Sex TableId InterestRate BirthYear RetirementAge Layer in
  let! mx_agen :=
    Act_Mx (Age + n) Sex TableId InterestRate BirthYear RetirementAge Layer in
  let! dx_age :=
    Act_Dx Age Sex TableId InterestRate BirthYear RetirementAge Layer in
  lift (fdiv (mx_age - mx_agen) dx_age).


(** *** premium_and_progress_values.py *)

Definition _max0 (v : Z) : Z := if (v >? 0)%Z then v else 0%Z.

Definition calc_premium_calculation (policy : Policy.PolicyInputs)
    (tariff : Tariff.TariffInputs) : M Prem.Block :=
  let x := Policy.x policy in
  let sex := Policy.sex policy in
  let n := Policy.n policy in
  let t := Policy.t policy in
  let si := Policy.sum_insured policy in
  let pf := Policy.pay_freq policy in
  let i := Tariff.interest_rate tariff in
  let mt := Tariff.mortality_table tariff in
  let alpha := Tariff.alpha tariff in
  let beta1 := Tariff.beta1 tariff in
  let gamma1 := Tariff.gamma1 tariff in
  let gamma2 := Tariff.gamma2 tariff in
  let k_const := Tariff.k tariff in
  let modal_surcharge := Tariff.modal_surcharge tariff in
  let! ax_t := Act_axn_k x t sex mt i 1 0 0 1 in
  let! ax_n := Act_axn_k x n sex mt i 1 0 0 1 in
  let! dx_x := Act_Dx x sex mt i 0 0 1 in
  let! dx_xn := Act_Dx (x + n) sex mt i 0 0 1 in
  let! a := act_nGrAx x n sex mt i 0 0 1 in
  let! e := lift (fdiv dx_xn dx_x) in
  let numerator := a + e + gamma1 * ax_t + gamma2 * (ax_n - ax_t) in
  let denominator := (1 - beta1) * ax_t - alpha * Qc_of_Z t in
  let! norm_gross_annual_prem := lift (fdiv numerator denominator) in
  let gross_annual_prem := si * norm_gross_annual_prem in
  let! modal := lift (fdiv (1 + modal_surcharge) (Qc_of_Z pf)) in
  let gross_modal_prem := modal * (gross_annual_prem + k_const) in
  let! a' := act_nGrAx x n sex mt i 0 0 1 in
  let! e' := lift (fdiv dx_xn dx_x) in
  let! pxt :=
    lift (fdiv (a' + e' + Qc_of_Z t * alpha * norm_gross_annual_prem) ax_t) in
  mret {| Prem.NormGrossAnnualPrem := norm_gross_annual_prem;
          Prem.GrossAnnualPrem := gross_annual_prem;
          Prem.GrossModalPrem := gross_modal_prem;
          Prem.Pxt := pxt |}.

(** [try: ... except Exception: value = 0.0] *)
Definition or_zero (r : Result Qc) : Qc :=
  match r with
  | Ok v => v
  | Err _ => 0
  end.

(** The body of the [for k in range(0, max_k + 1)] loop of
    [calc_progression_values], up to the [rows.append]: the dictionary of
    year [k].  [ax_ratio_n_over_t], [ax_5_at_x] and [dx_xn] are the values
    the function computes once before the loop. *)
Definition progression_row (policy : Policy.PolicyInputs)
    (tariff : Tariff.TariffInputs) (limits : Lim.Limits)
    (pxt gross_annual_prem : Qc) (ax_ratio_n_over_t ax_5_at_x dx_xn : Qc)
    (k : Z) : M Row.Progression :=
  let x := Policy.x policy in
  let sex := Policy.sex policy in
  let n := Policy.n policy in
  let t := Policy.t policy in
  let si := Policy.sum_insured policy in
  let i := Tariff.interest_rate tariff in
  let mt := Tariff.mortality_table tariff in
  let alpha := Tariff.alpha tariff in
  let gamma2 := Tariff.gamma2 tariff in
  let gamma3 := Tariff.gamma3 tariff in
  let min_age_flex := Lim.min_age_flex limits in
  let min_term_flex := Lim.min_term_flex limits in
  let! Axn :=
    if (k <=? n)%Z then
      let! dx_xk := Act_Dx (x + k) sex mt i 0 0 1 in
      let! a := act_nGrAx (x + k) (_max0 (n - k)) sex mt i 0 0 1 in
      let! e := lift (fdiv dx_xn dx_xk) in
      mret (a + e)
    else mret 0 in
  let! axn := Act_axn_k (x + k) (_max0 (n - k)) sex mt i 1 0 0 1 in
  let! axt := Act_axn_k (x + k) (_max0 (t - k)) sex mt i 1 0 0 1 in
  let kVx_pp := Axn - pxt * axt + gamma2 * (axn - ax_ratio_n_over_t * axt) in
  let kDRx_pp := si * kVx_pp in
  let kVx_pu := Axn + gamma3 * axn in
  let! mr_adj_num := Act_axn_k (x + k) (_max0 (5 - k)) sex mt i 1 0 0 1 in
  let! mr_adj := lift (fdiv mr_adj_num ax_5_at_x) in
  let kVx_MRV := kDRx_pp + alpha * Qc_of_Z t * gross_annual_prem * mr_adj in
  let flex_phase :=
    if ((x + k >=? min_age_flex) && (k >=? n - min_term_flex))%Z
    then 1%Z else 0%Z in
  let surrender_deduction :=
    if ((k >? n) || (flex_phase =? 1))%Z then 0
    else fmin (Qc_of_Z 150)
           (fmax (Qc_of_Z 50) (Q2Qc (1 # 100) * (si - kDRx_pp))) in
  let surrender_value := fmax 0 (kVx_MRV - surrender_deduction) in
  let suminsured_pu :=
    or_zero
      (if (k >? n)%Z then Ok 0
       else if (k <? t)%Z then
         if negb (Qc_eqb kVx_pu 0) then fdiv kVx_MRV kVx_pu else Ok 0
       else Ok si) in
  mret {| Row.k := k;
          Row.Axn := Axn;
          Row.axn := axn;
          Row.axt := axt;
          Row.kVx_pp := kVx_pp;
          Row.kDRx_pp := kDRx_pp;
          Row.kVx_pu := kVx_pu;
          Row.kVx_MRV := kVx_MRV;
          Row.Flex_phase := flex_phase;
          Row.Surrender_deduction := surrender_deduction;
          Row.Surrender_value := surrender_value;
          Row.SumInsured_pu := suminsured_pu |}.

Definition calc_progression_values (policy : Policy.PolicyInputs)
    (tariff : Tariff.TariffInputs) (limits : Lim.Limits)
    (pxt gross_annual_prem : Qc) (max_k : option Z)
  : M (list Row.Progression) :=
  let x := Policy.x policy in
  let sex := Policy.sex policy in
  let n := Policy.n policy in
  let t := Policy.t policy in
  let i := Tariff.interest_rate tariff in
  let mt := Tariff.mortality_table tariff in
  let max_k := match max_k with None => n | Some m => m end in
  let! ax_t0 := Act_axn_k x t sex mt i 1 0 0 1 in
  let! ax_n0 := Act_axn_k x n sex mt i 1 0 0 1 in
  let! ax_ratio_n_over_t := lift (fdiv ax_n0 ax_t0) in
  let! dx_x5 := Act_Dx x sex mt i 0 0 1 in
  let! ax_5_at_x := Act_axn_k x 5 sex mt i 1 0 0 1 in
  let! dx_xn := Act_Dx (x + n) sex mt i 0 0 1 in
  for_eachM (range 0 (max_k + 1)) (fun k rows =>
    let! row :=
      progression_row policy tariff limits pxt gross_annual_prem
        ax_ratio_n_over_t ax_5_at_x dx_xn k in
    mret (rows ++ [row]))
    [].


End Engine.

(** ** The premium functions of [outfunc.py]

    [outfunc.py] calls the actuarial functions of a module [basfunct] and
    reads its tariff parameters from [tariff.csv]; neither is among the
    sources at hand.  The functions used are parameters here, over whatever
    state [basfunct] keeps, and so is the outcome of reading the file. *)

Module Outfunc.

Record TariffParams : Type := {
  interest_rate : Qc;
  mortality_table : string;
  alpha : Qc;
  beta1 : Qc;
  gamma1 : Qc;
  gamma2 : Qc;
  k : Qc
}.

Section WithBasfunct.

(** The state [basfunct] works on. *)
Variable St : Type.

(** [basfunct.Act_axn_k(Age, n, Sex, TableId, InterestRate, k)] *)
Variable Act_axn_k : Z -> Z -> string -> string -> Qc -> Z -> SM St Qc.

(** [basfunct.Act_Dx(Age, Sex, TableId, InterestRate)] *)
Variable Act_Dx : Z -> string -> string -> Qc -> SM St Qc.

(** [basfunct.act_nGrAx(Age, n, Sex, TableId, InterestRate)] *)
Variable act_nGrAx : Z -> Z -> string -> string -> Qc -> SM St Qc.

(** What [_get_tariff_params()] returns or raises. *)
Variable _get_tariff_params : Result TariffParams.

Definition NormGrossAnnualPrem (sa : Qc) (age : Z) (sex : string) (n t : Z)
    (PayFreq : Z) (tariff : string) : SM St Qc :=
  let! p := lift _get_tariff_params in
  let x := age in
  let n_i := n in
  let t_i := t in
  let sex_s := sex in
  let mt := mortality_table p in
  let ir := interest_rate p in
  let! axn_t := Act_axn_k x t_i sex_s mt ir 1 in
  let! axn_n := Act_axn_k x n_i sex_s mt ir 1 in
  let! dx_xn := Act_Dx (x + n_i) sex_s mt ir in
  let! dx_x := Act_Dx x sex_s mt ir in
  let! dx_ratio := lift (fdiv dx_xn dx_x) in
  let! a := act_nGrAx x n_i sex_s mt ir in
  let numerator :=
    a + dx_ratio + gamma1 p * axn_t + gamma2 p * (axn_n - axn_t) in
  let denominator := (1 - beta1 p) * axn_t - alpha p * Qc_of_Z t_i in
  if Qc_eqb denominator 0 then
    lift (Err (ZeroDivisionError "Denominator in K5 (Bxt) is zero."))
  else lift (fdiv numerator denominator).

Definition GrossAnnualPrem (sa : Qc) (age : Z) (sex : string) (n t : Z)
    (PayFreq : Z) (tariff : string) : SM St Qc :=
  let! rate := NormGrossAnnualPrem sa age sex n t PayFreq tariff in
  mret (sa * rate).

End WithBasfunct.

End Outfunc.

(** * Vocabulary of the properties *)

Definition supported (table_id : string) : Prop :=
  table_id = "DAV1994_T"%string \/ table_id = "DAV2008_T"%string.

(** The sex code after normalisation: anything but [M] is [F]. *)
Definition normal_sex (Sex : string) : string :=
  if String.eqb (upper (strip Sex)) "M" then "M"%string else "F"%string.

(** The key of a column of the table store. *)
Definition column (TableId Sex : string) : string :=
  (upper (strip TableId) +:+ "_" +:+ normal_sex Sex)%string.

(** The limit a vector builder works with: [-1] stands for [MAX_AGE]. *)
Definition limit_of (K : constants) (EndAge : Z) : Z :=
  if (EndAge =? -1)%Z then MAX_AGE K else EndAge.

(** [vec] is a survivorship vector up to [limit] for the rates [qx]: it
    starts at one million and each entry is the rounded survivors of the
    entry before. *)
Definition lx_recurrence (K : constants) (qx : Z -> Result Qc) (limit : Z)
    (vec : list Qc) : Prop :=
  length vec = Z.to_nat (limit + 1)
  /\ vec !! 0%nat = Some (Qc_of_Z 1000000)
  /\ forall a : Z, (1 <= a <= limit)%Z ->
       exists prev q,
         qx (a - 1)%Z = Ok q
         /\ vec !! Z.to_nat (a - 1) = Some prev
         /\ vec !! Z.to_nat a
            = Some (_excel_round (prev * (1 - q)) (ROUND_LX K)).

(** [tx] holds the rounded deaths of the survivorship vector [lx] at every
    index below [limit]; the slot at [limit] still has its initial zero. *)
Definition tx_of (K : constants) (limit : Z) (lx tx : list Qc) : Prop :=
  length tx = Z.to_nat (limit + 1)
  /\ tx !! Z.to_nat limit = Some 0
  /\ forall i : Z, (0 <= i < limit)%Z ->
       exists a b,
         lx !! Z.to_nat i = Some a
         /\ lx !! Z.to_nat (i + 1) = Some b
         /\ tx !! Z.to_nat i = Some (_excel_round (a - b) (ROUND_TX K)).

(** [dx] holds the rounded discounted survivors of [lx] up to [limit]. *)
Definition Dx_of (K : constants) (limit : Z) (v : Qc) (lx dx : list Qc)
  : Prop :=
  length dx = Z.to_nat (limit + 1)
  /\ forall i : Z, (0 <= i <= limit)%Z ->
       exists a,
         lx !! Z.to_nat i = Some a
         /\ dx !! Z.to_nat i
            = Some (_excel_round (a * fpow v i) (ROUND_DX K)).

(** [cx] holds the rounded discounted deaths of [tx] below [limit]; the slot
    at [limit] still has its initial zero. *)
Definition Cx_of (K : constants) (limit : Z) (v : Qc) (tx cx : list Qc)
  : Prop :=
  length cx = Z.to_nat (limit + 1)
  /\ cx !! Z.to_nat limit = Some 0
  /\ forall i : Z, (0 <= i < limit)%Z ->
       exists a,
         tx !! Z.to_nat i = Some a
         /\ cx !! Z.to_nat i
            = Some (_excel_round (a * fpow v (i + 1)) (ROUND_CX K)).

(** [vec] is the backward running sum of [temp], rounded to [digits]
    decimal places after each addition. *)
Definition backward_sum (K : constants) (digits : Z) (temp vec : list Qc)
  : Prop :=
  length vec = Z.to_nat (MAX_AGE K + 1)
  /\ vec !! Z.to_nat (MAX_AGE K) = temp !! Z.to_nat (MAX_AGE K)
  /\ forall i : Z, (0 <= i < MAX_AGE K)%Z ->
       exists a b,
         vec !! Z.to_nat (i + 1) = Some a
         /\ temp !! Z.to_nat i = Some b
         /\ vec !! Z.to_nat i = Some (_excel_round (a + b) digits).

(** The value the cache holds under [key], if any. *)
Definition cached (w : World) (key : string) : option Qc :=
  match cache w with
  | Some c => c !! key
  | None => None
  end.

(** Every entry of the cache of [w] is still in the cache of [w']. *)
Definition cache_grows (w w' : World) : Prop :=
  forall key v, cached w key = Some v -> cached w' key = Some v.

(** The sum of a list of numbers. *)
Definition Qc_sum (xs : list Qc) : Qc := foldr Qcplus 0 xs.

(** The summand [(l/k) / (1 + (l/k)*i)] of the deduction term. *)
Definition deduction_summand (k : Z) (i : Qc) (l : Z) : Qc :=
  (Qc_of_Z l / Qc_of_Z k) / (1 + (Qc_of_Z l / Qc_of_Z k) * i).

(** The deduction term as the specification writes it:
    [(1+i)/k * Σ_{l=0}^{k-1} (l/k) / (1 + (l/k)*i)]. *)
Definition DeductionTerm_formula (k : Z) (i : Qc) : Qc :=
  (1 + i) / Qc_of_Z k * Qc_sum (deduction_summand k i <$> range 0 k).

(** [x] clamped to the interval from [lo] to [hi]. *)
Definition clamp (lo hi x : Qc) : Qc :=
  if Qc_ltb x lo then lo else if Qc_ltb hi x then hi else x.

(** The flex-phase flag of year [k]. *)
Definition flex_phase_of (policy : Policy.PolicyInputs) (limits : Lim.Limits)
    (k : Z) : Z :=
  if ((Policy.x policy + k >=? Lim.min_age_flex limits)
      && (k >=? Policy.n policy - Lim.min_term_flex limits))%Z
  then 1%Z else 0%Z.

(** The surrender deduction of a row, from its other fields. *)
Definition deduction_of (policy : Policy.PolicyInputs) (r : Row.Progression)
  : Qc :=
  if ((Row.k r >? Policy.n policy) || (Row.Flex_phase r =? 1))%Z then 0
  else clamp (Qc_of_Z 50) (Qc_of_Z 150)
         (Q2Qc (1 # 100) * (Policy.sum_insured policy - Row.kDRx_pp r)).

(** The paid-up sum insured of a row, from its other fields. *)
Definition paid_up_of (policy : Policy.PolicyInputs) (r : Row.Progression)
  : Qc :=
  if (Row.k r >? Policy.n policy)%Z then 0
  else if (Row.k r <? Policy.t policy)%Z then
    if Qc_eqb (Row.kVx_pu r) 0 then 0 else Row.kVx_MRV r / Row.kVx_pu r
  else Policy.sum_insured policy.


(** What every row of the progression table satisfies. *)
Definition row_ok (policy : Policy.PolicyInputs) (limits : Lim.Limits)
    (k : Z) (r : Row.Progression) : Prop :=
  Row.k r = k
  /\ Row.Flex_phase r = flex_phase_of policy limits k
  /\ Row.Surrender_deduction r = deduction_of policy r
  /\ Row.SumInsured_pu r = paid_up_of policy r.

(** The five factor evaluations [calc_premium_calculation] starts with, run
    in its order from the state [w], return the values [ax_t], [ax_n],
    [dx_x], [dx_xn] and [a] and leave the state [w']. *)
Definition factors_defined (K : constants) (xml : Result qx_tables)
    (float_str : Qc -> string) (policy : Policy.PolicyInputs)
    (tariff : Tariff.TariffInputs) (w : World)
    (ax_t ax_n dx_x dx_xn a : Qc) (w' : World) : Prop :=
  let x := Policy.x policy in
  let sex := Policy.sex policy in
  let n := Policy.n policy in
  let t := Policy.t policy in
  let i := Tariff.interest_rate tariff in
  let mt := Tariff.mortality_table tariff in
  exists w1 w2 w3 w4,
    Act_axn_k K xml float_str x t sex mt i 1 0 0 1 w = (Ok ax_t, w1)
    /\ Act_axn_k K xml float_str x n sex mt i 1 0 0 1 w1 = (Ok ax_n, w2)
    /\ Act_Dx K xml float_str x sex mt i 0 0 1 w2 = (Ok dx_x, w3)
    /\ Act_Dx K xml float_str (x + n) sex mt i 0 0 1 w3 = (Ok dx_xn, w4)
    /\ act_nGrAx K xml float_str x n sex mt i 0 0 1 w4 = (Ok a, w').

(** The same for [outfunc.NormGrossAnnualPrem]: the tariff parameters [p]
    are read, and the four factor evaluations and the quotient of the two
    [Dx] values, in the order of the function, return [axn_t], [axn_n] and
    [a] and the values [dx_xn] and [dx_x <> 0]. *)
Definition basfunct_factors_defined {St : Type}
    (Act_axn_k : Z -> Z -> string -> string -> Qc -> Z -> SM St Qc)
    (Act_Dx : Z -> string -> string -> Qc -> SM St Qc)
    (act_nGrAx : Z -> Z -> string -> string -> Qc -> SM St Qc)
    (p : Outfunc.TariffParams) (age : Z) (sex : string) (n t : Z) (w : St)
    (axn_t axn_n dx_x dx_xn a : Qc) (w' : St) : Prop :=
  let mt := Outfunc.mortality_table p in
  let ir := Outfunc.interest_rate p in
  exists w1 w2 w3 w4,
    Act_axn_k age t sex mt ir 1%Z w = (Ok axn_t, w1)
    /\ Act_axn_k age n sex mt ir 1%Z w1 = (Ok axn_n, w2)
    /\ Act_Dx (age + n)%Z sex mt ir w2 = (Ok dx_xn, w3)
    /\ Act_Dx age sex mt ir w3 = (Ok dx_x, w4)
    /\ dx_x <> 0
    /\ act_nGrAx age n sex mt ir w4 = (Ok a, w').

(** Numerator and denominator of the normalized gross annual premium. *)
Definition premium_numerator (gamma1 gamma2 ax_t ax_n dx_x dx_xn a : Qc) : Qc :=
  a + dx_xn / dx_x + gamma1 * ax_t + gamma2 * (ax_n - ax_t).

Definition premium_denominator (alpha beta1 ax_t : Qc) (t : Z) : Qc :=
  (1 - beta1) * ax_t - alpha * Qc_of_Z t.

(** An exception is a division by zero. *)
Definition is_zero_division {A : Type} (r : Result A) : Prop :=
  exists msg, r = Err (ZeroDivisionError msg).

(** The five factor evaluations of [factors_defined] as one computation,
    so that they can be run on a concrete input. *)
Definition factors_run (K : constants) (xml : Result qx_tables)
    (float_str : Qc -> string) (policy : Policy.PolicyInputs)
    (tariff : Tariff.TariffInputs) : M (Qc * Qc * Qc * Qc * Qc) :=
  let x := Policy.x policy in
  let sex := Policy.sex policy in
  let n := Policy.n policy in
  let t := Policy.t policy in
  let i := Tariff.interest_rate tariff in
  let mt := Tariff.mortality_table tariff in
  let! ax_t := Act_axn_k K xml float_str x t sex mt i 1 0 0 1 in
  let! ax_n := Act_axn_k K xml float_str x n sex mt i 1 0 0 1 in
  let! dx_x := Act_Dx K xml float_str x sex mt i 0 0 1 in
  let! dx_xn := Act_Dx K xml float_str (x + n) sex mt i 0 0 1 in
  let! a := act_nGrAx K xml float_str x n sex mt i 0 0 1 in
  mret (ax_t, ax_n, dx_x, dx_xn, a).

(** * A small worked configuration

    Nine ages, two decimal places everywhere except for [ROUND_NX], and one
    table column.  It is used to run the definitions above on concrete
    inputs. *)

Definition demo_constants : constants :=
  {| ROUND_LX := 2; ROUND_TX := 2; ROUND_DX := 2; ROUND_CX := 2;
     ROUND_NX := 0; ROUND_MX := 2; ROUND_RX := 2; MAX_AGE := 8 |}.

Definition demo_rates : list Qc :=
  [ Q2Qc (1 # 10); Q2Qc (1 # 10); Q2Qc (2 # 10); Q2Qc (2 # 10);
    Q2Qc (3 # 10); Q2Qc (3 # 10); Q2Qc (4 # 10); Q2Qc (5 # 10); Q2Qc 1 ].

Definition demo_tables : qx_tables :=
  {[ "DAV1994_T_M"%string := demo_rates ]}.

Fixpoint frac_digits (fuel : nat) (r d : Z) : string :=
  match fuel with
  | O => ""
  | S fuel' =>
      if (r =? 0)%Z then ""
      else (pretty (r * 10 / d)%Z
            +:+ frac_digits fuel' ((r * 10) mod d)%Z d)%string
  end.

(** A decimal rendering of a number, for the keys of the examples. *)
Definition demo_float_str (q : Qc) : string :=
  let n := Qnum q in
  let d := Zpos (Qden q) in
  let a := Z.abs n in
  let f := frac_digits 17 (a mod d)%Z d in
  ((if (n <? 0)%Z then "-" else "") +:+ pretty (a / d)%Z +:+ "."
   +:+ (if String.eqb f "" then "0" else f))%string.

(** The state of a fresh process: no cache yet, no builder called. *)
Definition fresh : World := {| cache := None; builder_calls := 0 |}.

Definition demo_policy : Policy.PolicyInputs :=
  {| Policy.x := 0; Policy.sex := "M"; Policy.n := 3; Policy.t := 2;
     Policy.sum_insured := Qc_of_Z 1000; Policy.pay_freq := 12 |}.

Definition demo_tariff : Tariff.TariffInputs :=
  {| Tariff.interest_rate := Q2Qc (1 # 100);
     Tariff.mortality_table := "DAV1994_T";
     Tariff.alpha := Q2Qc (1 # 40);
     Tariff.beta1 := Q2Qc (1 # 40);
     Tariff.gamma1 := Q2Qc (1 # 1000);
     Tariff.gamma2 := Q2Qc (1 # 1000);
     Tariff.gamma3 := Q2Qc (1 # 1000);
     Tariff.k := Qc_of_Z 24;
     Tariff.modal_surcharge := Q2Qc (5 # 100) |}.

Definition demo_limits : Lim.Limits :=
  {| Lim.min_age_flex := 60; Lim.min_term_flex := 5 |}.

(** A second configuration, without mortality and without interest, in which
    the paid-up reserve of year 0 vanishes. *)




(** The first policy again, with a payment frequency of zero. *)
Definition demo_policy_no_freq : Policy.PolicyInputs :=
  {| Policy.x := 0; Policy.sex := "M"; Policy.n := 3; Policy.t := 2;
     Policy.sum_insured := Qc_of_Z 1000; Policy.pay_freq := 0 |}.

(** * Properties *)

(** ** Numbers *)

Ltac qc_to_q :=
  unfold Qcle, Qclt, Qcplus, Qcmult, Qcminus, Qcopp, Qc_of_Z, Q2Qc in *;
  simpl this in *;
  rewrite ?Qred_correct in *.

Lemma Qc_eqb_eq (x y : Qc) : Qc_eqb x y = true <-> x = y.
Proof.
  unfold Qc_eqb. rewrite Qeq_bool_iff. split.
  - apply Qc_is_canon.
  - intros ->. reflexivity.
Qed.

Lemma Qc_eqb_neq (x y : Qc) : Qc_eqb x y = false <-> x <> y.
Proof.
  rewrite <- Qc_eqb_eq. destruct (Qc_eqb x y); split; congruence.
Qed.

Lemma Qc_leb_le (x y : Qc) : Qc_leb x y = true <-> x <= y.
Proof. unfold Qc_leb, Qcle. apply Qle_bool_iff. Qed.

Lemma Qc_leb_gt (x y : Qc) : Qc_leb x y = false <-> y < x.
Proof.
  unfold Qc_leb, Qclt. split.
  - intros H. apply Qnot_le_lt. intros C. apply Qle_bool_iff in C. congruence.
  - intros H. destruct (Qle_bool x y) eqn:E; [ | reflexivity ].
    apply Qle_bool_iff in E. exfalso. eapply Qlt_not_le; eauto.
Qed.

Lemma Qc_ltb_lt (x y : Qc) : Qc_ltb x y = true <-> x < y.
Proof.
  unfold Qc_ltb. rewrite negb_true_iff. apply Qc_leb_gt.
Qed.

Lemma Qc_ltb_ge (x y : Qc) : Qc_ltb x y = false <-> y <= x.
Proof.
  unfold Qc_ltb. rewrite negb_false_iff. apply Qc_leb_le.
Qed.

Lemma fdiv_ok (a b : Qc) : b <> 0 -> fdiv a b = Ok (a / b).
Proof.
  intros H. unfold fdiv. apply Qc_eqb_neq in H. rewrite H. reflexivity.
Qed.

Lemma fdiv_zero (a : Qc) :
  fdiv a 0 = Err (ZeroDivisionError "float division by zero").
Proof. reflexivity. Qed.

Lemma fdiv_inv (a b r : Qc) : fdiv a b = Ok r -> b <> 0 /\ r = a / b.
Proof.
  unfold fdiv. destruct (Qc_eqb b 0) eqn:E; intros H; inversion H.
  split; [ now apply Qc_eqb_neq | reflexivity ].
Qed.

Lemma fdiv_err (a b : Qc) (e : exn) : fdiv a b = Err e -> b = 0.
Proof.
  unfold fdiv. destruct (Qc_eqb b 0) eqn:E; intros H; inversion H.
  now apply Qc_eqb_eq.
Qed.

Lemma fmin_spec (a b : Qc) : fmin a b <= a /\ fmin a b <= b.
Proof.
  unfold fmin. destruct (Qc_ltb b a) eqn:E.
  - apply Qc_ltb_lt in E. split; [ now apply Qclt_le_weak | apply Qcle_refl ].
  - apply Qc_ltb_ge in E. split; [ apply Qcle_refl | exact E ].
Qed.

Lemma fmax_spec (a b : Qc) : a <= fmax a b /\ b <= fmax a b.
Proof.
  unfold fmax. destruct (Qc_ltb a b) eqn:E.
  - apply Qc_ltb_lt in E. split; [ now apply Qclt_le_weak | apply Qcle_refl ].
  - apply Qc_ltb_ge in E. split; [ apply Qcle_refl | exact E ].
Qed.

Lemma fmin_glb (a b c : Qc) : c <= a -> c <= b -> c <= fmin a b.
Proof. unfold fmin. destruct (Qc_ltb b a); auto. Qed.

Lemma Qc_of_Z_le (a b : Z) : (a <= b)%Z -> Qc_of_Z a <= Qc_of_Z b.
Proof. intros H. qc_to_q. now rewrite <- Zle_Qle. Qed.

Lemma Qc_of_Z_lt (a b : Z) : (a < b)%Z -> Qc_of_Z a < Qc_of_Z b.
Proof. intros H. qc_to_q. now rewrite <- Zlt_Qlt. Qed.

Lemma Qc_of_Z_inj (a b : Z) : Qc_of_Z a = Qc_of_Z b -> a = b.
Proof.
  unfold Qc_of_Z. intros H. apply Q2Qc_eq_iff in H.
  apply inject_Z_injective. exact H.
Qed.

Lemma Qc_of_Z_mult (a b : Z) : Qc_of_Z (a * b) = Qc_of_Z a * Qc_of_Z b.
Proof.
  apply Qc_is_canon. qc_to_q. rewrite inject_Z_mult. reflexivity.
Qed.

Lemma Qc_of_Z_plus (a b : Z) : Qc_of_Z (a + b) = Qc_of_Z a + Qc_of_Z b.
Proof.
  apply Qc_is_canon. qc_to_q. rewrite inject_Z_plus. reflexivity.
Qed.

Lemma Qc_of_Z_0 : Qc_of_Z 0 = 0.
Proof. apply Qc_is_canon. vm_compute. reflexivity. Qed.

Lemma Qc_of_Z_1 : Qc_of_Z 1 = 1.
Proof. apply Qc_is_canon. vm_compute. reflexivity. Qed.

Lemma pow10_pos (e : Z) : 0 < pow10 e.
Proof.
  unfold pow10. destruct (0 <=? e)%Z eqn:E.
  - rewrite <- Qc_of_Z_0. apply Qc_of_Z_lt. apply Z.pow_pos_nonneg; lia.
  - assert (H : 0 < Qc_of_Z (10 ^ (- e))).
    { rewrite <- Qc_of_Z_0. apply Qc_of_Z_lt. apply Z.pow_pos_nonneg; lia. }
    revert H. generalize (Qc_of_Z (10 ^ (- e))). intros q H.
    unfold Qclt, Qcinv, Q2Qc in *. simpl this in *. rewrite !Qred_correct in *.
    now apply Qinv_lt_0_compat.
Qed.

Lemma pow10_neq_0 (e : Z) : pow10 e <> 0.
Proof.
  intros H. pose proof (pow10_pos e) as P. rewrite H in P.
  exact (Qclt_not_le _ _ P (Qcle_refl _)).
Qed.

(** ** Rounding half away from zero *)

Lemma Qfloor_unique (x : Q) (z : Z) :
  (inject_Z z <= x)%Q -> (x < inject_Z (z + 1))%Q -> Qfloor x = z.
Proof.
  intros Hlo Hhi.
  pose proof (Qfloor_le x) as F1. pose proof (Qlt_floor x) as F2.
  assert (A : (inject_Z z < inject_Z (Qfloor x + 1))%Q) by lra.
  assert (B : (inject_Z (Qfloor x) < inject_Z (z + 1))%Q) by lra.
  rewrite <- Zlt_Qlt in A, B. lia.
Qed.

Lemma half_up_mono (x y : Qc) : x <= y -> (half_up x <= half_up y)%Z.
Proof.
  intros H. unfold half_up.
  destruct (Qc_leb 0 x) eqn:Ex, (Qc_leb 0 y) eqn:Ey.
  - apply Qfloor_resp_le. qc_to_q. lra.
  - apply Qc_leb_le in Ex. apply Qc_leb_gt in Ey.
    exfalso. apply (Qclt_not_le _ _ Ey). eapply Qcle_trans; eauto.
  - apply Qc_leb_gt in Ex. apply Qc_leb_le in Ey.
    assert (A : (0 <= Qfloor (- x + Q2Qc (1 # 2)))%Z).
    { change 0%Z with (Qfloor 0). apply Qfloor_resp_le. qc_to_q. lra. }
    assert (B : (0 <= Qfloor (y + Q2Qc (1 # 2)))%Z).
    { change 0%Z with (Qfloor 0). apply Qfloor_resp_le. qc_to_q. lra. }
    lia.
  - apply Z.opp_le_mono. rewrite !Z.opp_involutive.
    apply Qfloor_resp_le. qc_to_q. lra.
Qed.

Lemma half_up_of_Z (z : Z) : half_up (Qc_of_Z z) = z.
Proof.
  unfold half_up. destruct (Qc_leb 0 (Qc_of_Z z)) eqn:E.
  - apply Qfloor_unique; qc_to_q; rewrite ?inject_Z_plus;
      change (inject_Z 1) with 1%Q; lra.
  - apply Qc_leb_gt in E.
    assert (H : Qfloor (- Qc_of_Z z + Q2Qc (1 # 2)) = (- z)%Z).
    { apply Qfloor_unique; qc_to_q;
        rewrite ?inject_Z_plus, ?inject_Z_opp; change (inject_Z 1) with 1%Q;
        lra. }
    rewrite H. lia.
Qed.

Lemma half_up_nonneg (x : Qc) : 0 <= x -> (0 <= half_up x)%Z.
Proof.
  intros H. rewrite <- (half_up_of_Z 0), Qc_of_Z_0. now apply half_up_mono.
Qed.

Lemma half_up_small (x : Qc) : 0 <= x -> x < Q2Qc (1 # 2) -> half_up x = 0%Z.
Proof.
  intros H0 H1. unfold half_up. apply Qc_leb_le in H0 as E. rewrite E.
  apply Qfloor_unique; qc_to_q; change (inject_Z (0 + 1)) with 1%Q;
    change (inject_Z 0) with 0%Q; lra.
Qed.

Lemma Qcdiv_le_mono (x y q : Qc) : 0 < q -> x <= y -> x / q <= y / q.
Proof.
  intros Hq H. unfold Qcdiv. apply Qcmult_le_mono_nonneg_r; [ | exact H ].
  apply Qclt_le_weak.
  unfold Qclt, Qcinv, Q2Qc in *. simpl this in *. rewrite !Qred_correct in *.
  now apply Qinv_lt_0_compat.
Qed.

Lemma _excel_round_mono (x y : Qc) (digits : Z) :
  x <= y -> _excel_round x digits <= _excel_round y digits.
Proof.
  intros H. unfold _excel_round.
  apply Qcmult_le_mono_nonneg_r.
  - apply Qclt_le_weak, pow10_pos.
  - apply Qc_of_Z_le, half_up_mono, Qcdiv_le_mono; [ apply pow10_pos | exact H ].
Qed.

(** A multiple of the quantum is left unchanged. *)
Lemma _excel_round_grid (z : Z) (digits : Z) :
  _excel_round (Qc_of_Z z * pow10 (- digits)) digits
  = Qc_of_Z z * pow10 (- digits).
Proof.
  unfold _excel_round.
  replace (Qc_of_Z z * pow10 (- digits) / pow10 (- digits)) with (Qc_of_Z z).
  - now rewrite half_up_of_Z.
  - field. apply pow10_neq_0.
Qed.

Lemma _excel_round_idem (x : Qc) (digits : Z) :
  _excel_round (_excel_round x digits) digits = _excel_round x digits.
Proof. unfold _excel_round at 2 3. apply _excel_round_grid. Qed.

Lemma _excel_round_nonneg (x : Qc) (digits : Z) :
  0 <= x -> 0 <= _excel_round x digits.
Proof.
  intros H. unfold _excel_round.
  apply Qcmult_nonneg_nonneg.
  - rewrite <- Qc_of_Z_0 at 1. apply Qc_of_Z_le, half_up_nonneg.
    replace 0 with (0 / pow10 (- digits)).
    + apply Qcdiv_le_mono; [ apply pow10_pos | exact H ].
    + field. apply pow10_neq_0.
  - apply Qclt_le_weak, pow10_pos.
Qed.

(** Rounding a value below a multiple of the quantum stays below it. *)
Lemma _excel_round_le_grid (y : Qc) (z : Z) (digits : Z) :
  y <= Qc_of_Z z * pow10 (- digits) ->
  _excel_round y digits <= Qc_of_Z z * pow10 (- digits).
Proof.
  intros H. rewrite <- (_excel_round_grid z digits).
  now apply _excel_round_mono.
Qed.

Lemma _excel_round_le_rounded (y x : Qc) (digits : Z) :
  y <= _excel_round x digits ->
  _excel_round y digits <= _excel_round x digits.
Proof. unfold _excel_round at 1 3. apply _excel_round_le_grid. Qed.

(** ** Loops *)

Lemma rbind_ok {A B : Type} (m : Result A) (k : A -> Result B) (b : B) :
  rbind m k = Ok b -> exists a, m = Ok a /\ k a = Ok b.
Proof. destruct m as [a|e]; simpl; intros H; [ eauto | discriminate ]. Qed.

Lemma range_cons (lo hi : Z) :
  (lo < hi)%Z -> range lo hi = lo :: range (lo + 1) hi.
Proof.
  intros H. unfold range. rewrite seqZ_cons by lia.
  f_equal. f_equal; lia.
Qed.

Lemma range_nil (lo hi : Z) : (hi <= lo)%Z -> range lo hi = [].
Proof. intros H. unfold range. apply seqZ_nil. lia. Qed.

Lemma range_down_cons (hi lo : Z) :
  (lo < hi)%Z -> range_down hi lo = hi :: range_down (hi - 1) lo.
Proof.
  intros H. unfold range_down.
  replace (hi - lo)%Z with ((hi - 1 - lo) + 1)%Z by lia.
  rewrite seqZ_app by lia. rewrite reverse_app.
  replace (lo + 1 + (hi - 1 - lo))%Z with hi by lia.
  reflexivity.
Qed.

Lemma range_down_nil (hi lo : Z) : (hi <= lo)%Z -> range_down hi lo = [].
Proof. intros H. unfold range_down. rewrite seqZ_nil by lia. reflexivity. Qed.

Section ForEach.
Context {S : Type}.
Variable body : Z -> S -> Result S.

(** An ascending loop that cannot fail establishes its invariant. *)
Lemma for_each_range_total (I : Z -> S -> Prop) (lo hi : Z) (s0 : S) :
  (lo <= hi)%Z ->
  I lo s0 ->
  (forall i s, (lo <= i < hi)%Z -> I i s ->
     exists s1, body i s = Ok s1 /\ I (i + 1)%Z s1) ->
  exists s', for_each (range lo hi) body s0 = Ok s' /\ I hi s'.
Proof.
  intros Hle. remember (Z.to_nat (hi - lo)) as m eqn:Hm.
  revert lo s0 Hle Hm. induction m as [|m IH]; intros lo s0 Hle Hm H0 Hstep.
  - assert (lo = hi) by lia. subst lo. rewrite range_nil by lia.
    exists s0. split; [ reflexivity | exact H0 ].
  - rewrite range_cons by lia. simpl.
    destruct (Hstep lo s0) as (s1 & E1 & I1); [ lia | exact H0 | ].
    rewrite E1. simpl. apply IH; [ lia | lia | exact I1 | ].
    intros i s Hi. apply Hstep. lia.
Qed.

(** What an ascending loop has established when it ends normally. *)
Lemma for_each_range_inv (I : Z -> S -> Prop) (lo hi : Z) (s0 s' : S) :
  (lo <= hi)%Z ->
  I lo s0 ->
  (forall i s s1, (lo <= i < hi)%Z -> I i s -> body i s = Ok s1 ->
     I (i + 1)%Z s1) ->
  for_each (range lo hi) body s0 = Ok s' ->
  I hi s'.
Proof.
  intros Hle. remember (Z.to_nat (hi - lo)) as m eqn:Hm.
  revert lo s0 Hle Hm. induction m as [|m IH]; intros lo s0 Hle Hm H0 Hstep.
  - assert (lo = hi) by lia. subst lo. rewrite range_nil by lia.
    simpl. intros [= <-]. exact H0.
  - rewrite range_cons by lia. simpl. intros Hrun.
    apply rbind_ok in Hrun as (s1 & E1 & Hrun).
    apply (IH (lo + 1)%Z s1); [ lia | lia | | | exact Hrun ].
    + apply (Hstep lo s0); [ lia | exact H0 | exact E1 ].
    + intros i s s2 Hi. apply Hstep. lia.
Qed.

(** The same for a descending loop; [I i] holds before index [i] is
    processed. *)
Lemma for_each_range_down_total (I : Z -> S -> Prop) (hi lo : Z) (s0 : S) :
  (lo <= hi)%Z ->
  I hi s0 ->
  (forall i s, (lo < i <= hi)%Z -> I i s ->
     exists s1, body i s = Ok s1 /\ I (i - 1)%Z s1) ->
  exists s', for_each (range_down hi lo) body s0 = Ok s' /\ I lo s'.
Proof.
  intros Hle. remember (Z.to_nat (hi - lo)) as m eqn:Hm.
  revert hi s0 Hle Hm. induction m as [|m IH]; intros hi s0 Hle Hm H0 Hstep.
  - assert (lo = hi) by lia. subst lo. rewrite range_down_nil by lia.
    exists s0. split; [ reflexivity | exact H0 ].
  - rewrite range_down_cons by lia. simpl.
    destruct (Hstep hi s0) as (s1 & E1 & I1); [ lia | exact H0 | ].
    rewrite E1. simpl. apply IH; [ lia | lia | exact I1 | ].
    intros i s Hi. apply Hstep. lia.
Qed.

End ForEach.

(** ** Lists *)

Lemma length_zeros (size : Z) : length (zeros size) = Z.to_nat size.
Proof. apply length_replicate. Qed.

Lemma lookup_zeros (size : Z) (i : nat) :
  (i < Z.to_nat size)%nat -> zeros size !! i = Some 0.
Proof. intros H. unfold zeros. now apply lookup_replicate_2. Qed.

Lemma norm_index_nonneg {A : Type} (vec : list A) (i : Z) :
  (0 <= i < Z.of_nat (length vec))%Z -> norm_index vec i = Some (Z.to_nat i).
Proof.
  intros [H0 H1]. unfold norm_index.
  assert (E : (i <? 0)%Z = false) by lia. rewrite E.
  assert (E' : ((0 <=? i) && (i <? Z.of_nat (length vec)))%Z = true) by lia.
  now rewrite E'.
Qed.

Lemma norm_index_ge {A : Type} (vec : list A) (i : Z) :
  (Z.of_nat (length vec) <= i)%Z -> norm_index vec i = None.
Proof.
  intros H. unfold norm_index.
  assert (E : (i <? 0)%Z = false) by lia. rewrite E.
  assert (E' : ((0 <=? i) && (i <? Z.of_nat (length vec)))%Z = false) by lia.
  now rewrite E'.
Qed.

Lemma getitem_nonneg (vec : list Qc) (i : Z) (v : Qc) :
  (0 <= i)%Z -> vec !! Z.to_nat i = Some v -> getitem vec i = Ok v.
Proof.
  intros H0 Hv. unfold getitem.
  apply lookup_lt_Some in Hv as Hlt.
  rewrite norm_index_nonneg by lia. now rewrite Hv.
Qed.

Lemma getitem_inv (vec : list Qc) (i : Z) (v : Qc) :
  (0 <= i)%Z -> getitem vec i = Ok v ->
  vec !! Z.to_nat i = Some v /\ (i < Z.of_nat (length vec))%Z.
Proof.
  intros H0. unfold getitem.
  destruct (Z_lt_le_dec i (Z.of_nat (length vec))) as [Hlt|Hge].
  - rewrite norm_index_nonneg by lia.
    destruct (vec !! Z.to_nat i); intros [= <-]. auto.
  - rewrite norm_index_ge by lia. discriminate.
Qed.

(** [vec[-1]] is the last element. *)
Lemma getitem_minus_1 (vec : list Qc) (v : Qc) :
  vec !! (length vec - 1)%nat = Some v -> getitem vec (-1) = Ok v.
Proof.
  intros Hv. apply lookup_lt_Some in Hv as Hlt.
  unfold getitem, norm_index. change (-1 <? 0)%Z with true. cbv iota.
  destruct ((0 <=? -1 + Z.of_nat (length vec))
            && (-1 + Z.of_nat (length vec) <? Z.of_nat (length vec)))%Z eqn:E;
    [ | lia ].
  replace (Z.to_nat (-1 + Z.of_nat (length vec))) with (length vec - 1)%nat
    by lia.
  now rewrite Hv.
Qed.

Lemma setitem_nonneg (vec : list Qc) (i : Z) (v : Qc) :
  (0 <= i < Z.of_nat (length vec))%Z ->
  setitem vec i v = Ok (<[Z.to_nat i := v]> vec).
Proof. intros H. unfold setitem. now rewrite norm_index_nonneg. Qed.

(** The two assignments every builder loop ends with:
    [vec[i] = e; vec[i] = _excel_round(vec[i], digits)]. *)
Lemma store_rounded (vec : list Qc) (i : Z) (e : Qc) (digits : Z) :
  (0 <= i < Z.of_nat (length vec))%Z ->
  (let? vec1 := setitem vec i e in
   let? cur := getitem vec1 i in
   setitem vec1 i (_excel_round cur digits))
  = Ok (<[Z.to_nat i := _excel_round e digits]> vec).
Proof.
  intros H. rewrite setitem_nonneg by lia. simpl.
  rewrite (getitem_nonneg _ _ e); [ | lia | ].
  - simpl. rewrite setitem_nonneg by (rewrite length_insert; lia).
    now rewrite list_insert_insert_eq.
  - apply list_lookup_insert_eq. lia.
Qed.

(** ** The mortality table store *)

Lemma supported_eqb (s : string) :
  String.eqb s "DAV1994_T" || String.eqb s "DAV2008_T" = true <-> supported s.
Proof.
  unfold supported. rewrite orb_true_iff, !String.eqb_eq. reflexivity.
Qed.

Lemma Act_qx_eq (T : qx_tables) (Age : Z) (Sex TableId : string)
    (BirthYear RetirementAge Layer : Z) :
  Act_qx (Ok T) Age Sex TableId BirthYear RetirementAge Layer
  = if String.eqb (upper (strip TableId)) "DAV1994_T"
       || String.eqb (upper (strip TableId)) "DAV2008_T"
    then
      match T !! column TableId Sex with
      | None =>
          Err (KeyError ("Mortality table column not found in XML: "
                         +:+ column TableId Sex))
      | Some vec =>
          if ((Age <? 0) || (Age >=? Z.of_nat (length vec)))%Z then
            Err (IndexError ("Age " +:+ str_int Age
                             +:+ " out of bounds for table "
                             +:+ column TableId Sex
                             +:+ " (size=" +:+ str_int (Z.of_nat (length vec))
                             +:+ ")"))
          else getitem vec Age
      end
    else Err (ValueError ("Mortality table not implemented: " +:+ TableId)).
Proof.
  unfold Act_qx, _load_mortality_tables_if_needed, column, normal_sex. simpl.
  destruct (String.eqb (upper (strip Sex)) "M") eqn:E; simpl; [ | reflexivity ].
  apply String.eqb_eq in E. rewrite E. reflexivity.
Qed.

(** What [Act_qx] returns for a loaded store, case by case. *)
Lemma Act_qx_cases (T : qx_tables) (Age : Z) (Sex TableId : string)
    (BirthYear RetirementAge Layer : Z) :
  let r := Act_qx (Ok T) Age Sex TableId BirthYear RetirementAge Layer in
  (~ supported (upper (strip TableId)) /\
   r = Err (ValueError ("Mortality table not implemented: " +:+ TableId)))
  \/ (supported (upper (strip TableId)) /\
      T !! column TableId Sex = None /\ exists msg, r = Err (KeyError msg))
  \/ (supported (upper (strip TableId)) /\
      exists vec, T !! column TableId Sex = Some vec /\
        (((Age < 0)%Z \/ (Z.of_nat (length vec) <= Age)%Z) /\
         exists msg, r = Err (IndexError msg)))
  \/ (supported (upper (strip TableId)) /\
      exists vec q, T !! column TableId Sex = Some vec /\
        (0 <= Age < Z.of_nat (length vec))%Z /\
        vec !! Z.to_nat Age = Some q /\ r = Ok q).
Proof.
  intros r. subst r. rewrite Act_qx_eq.
  destruct (String.eqb (upper (strip TableId)) "DAV1994_T"
            || String.eqb (upper (strip TableId)) "DAV2008_T") eqn:Es.
  - apply supported_eqb in Es. right.
    destruct (T !! column TableId Sex) as [vec|] eqn:Ec.
    + right.
      destruct ((Age <? 0) || (Age >=? Z.of_nat (length vec)))%Z eqn:Ea.
      * left. split; [ exact Es | ]. exists vec. split; [ reflexivity | ].
        split; [ lia | eauto ].
      * right. split; [ exact Es | ].
        assert (Hr : (0 <= Age < Z.of_nat (length vec))%Z) by lia.
        destruct (lookup_lt_is_Some_2 vec (Z.to_nat Age)) as [q Hq]; [ lia | ].
        exists vec, q. repeat split; try lia; try assumption.
        apply getitem_nonneg; [ lia | exact Hq ].
    + left. split; [ exact Es | ]. split; [ reflexivity | eauto ].
  - left. split; [ | reflexivity ].
    intros Hs. apply supported_eqb in Hs. congruence.
Qed.

(** ** Survivors: [Vec_lx] *)

Section Lx.
Variable K : constants.
Variable xml : Result qx_tables.
Variables (Sex TableId : string) (BirthYear RetirementAge Layer : Z).

Let qx (a : Z) : Result Qc :=
  Act_qx xml a Sex TableId BirthYear RetirementAge Layer.

Lemma Vec_lx_unfold (EndAge : Z) :
  (0 <= limit_of K EndAge)%Z ->
  Vec_lx K xml EndAge Sex TableId BirthYear RetirementAge Layer
  = for_each (range 1 (limit_of K EndAge + 1)) (fun i vec =>
      let? qx := Act_qx xml (i - 1) Sex TableId BirthYear RetirementAge Layer in
      let? prev := getitem vec (i - 1) in
      let? vec := setitem vec i (prev * (1 - qx)) in
      let? cur := getitem vec i in
      setitem vec i (_excel_round cur (ROUND_LX K)))
      (<[0%nat := Qc_of_Z 1000000]> (zeros (limit_of K EndAge + 1))).
Proof.
  intros H. unfold Vec_lx. fold (limit_of K EndAge).
  assert (E : (limit_of K EndAge <? 0)%Z = false) by lia. rewrite E.
  rewrite setitem_nonneg by (rewrite length_zeros; lia). reflexivity.
Qed.

Lemma Vec_lx_negative (EndAge : Z) :
  (limit_of K EndAge < 0)%Z ->
  Vec_lx K xml EndAge Sex TableId BirthYear RetirementAge Layer
  = Err end_age_error.
Proof.
  intros H. unfold Vec_lx. fold (limit_of K EndAge).
  assert (E : (limit_of K EndAge <? 0)%Z = true) by lia. now rewrite E.
Qed.

(** The invariant of the loop: the recurrence holds below index [j]. *)
Let lx_inv (limit j : Z) (vec : list Qc) : Prop :=
  length vec = Z.to_nat (limit + 1)
  /\ vec !! 0%nat = Some (Qc_of_Z 1000000)
  /\ forall a : Z, (1 <= a < j)%Z ->
       exists prev q,
         qx (a - 1)%Z = Ok q
         /\ vec !! Z.to_nat (a - 1) = Some prev
         /\ vec !! Z.to_nat a
            = Some (_excel_round (prev * (1 - q)) (ROUND_LX K)).

Lemma lx_inv_init (limit : Z) :
  (0 <= limit)%Z ->
  lx_inv limit 1 (<[0%nat := Qc_of_Z 1000000]> (zeros (limit + 1))).
Proof.
  intros H. repeat split.
  - now rewrite length_insert, length_zeros.
  - apply list_lookup_insert_eq. rewrite length_zeros. lia.
  - intros a Ha. lia.
Qed.

Lemma lx_inv_step (limit i : Z) (vec : list Qc) (q prev : Qc) :
  (1 <= i <= limit)%Z ->
  lx_inv limit i vec ->
  qx (i - 1)%Z = Ok q ->
  vec !! Z.to_nat (i - 1) = Some prev ->
  lx_inv limit (i + 1)
    (<[Z.to_nat i := _excel_round (prev * (1 - q)) (ROUND_LX K)]> vec).
Proof.
  intros Hi (Hlen & H0 & Hrec) Hq Hprev. repeat split.
  - now rewrite length_insert.
  - rewrite list_lookup_insert_ne by lia. exact H0.
  - intros a Ha. destruct (Z.eq_dec a i) as [->|Hne].
    + exists prev, q. split; [ exact Hq | ].
      split.
      * rewrite list_lookup_insert_ne by lia. exact Hprev.
      * apply list_lookup_insert_eq. lia.
    + destruct (Hrec a) as (p & q' & Hq' & Hp & Ha'); [ lia | ].
      exists p, q'. split; [ exact Hq' | ].
      rewrite !list_lookup_insert_ne by lia. auto.
Qed.

(** [Vec_lx] returns whenever the table has a rate for every age below the
    limit, and what it returns obeys the recurrence. *)
Lemma Vec_lx_total (EndAge : Z) :
  (0 <= limit_of K EndAge)%Z ->
  (forall a, (0 <= a < limit_of K EndAge)%Z -> exists q, qx a = Ok q) ->
  exists vec,
    Vec_lx K xml EndAge Sex TableId BirthYear RetirementAge Layer = Ok vec
    /\ lx_recurrence K qx (limit_of K EndAge) vec.
Proof.
  intros Hlim Hqx. rewrite Vec_lx_unfold by exact Hlim.
  set (limit := limit_of K EndAge) in *.
  destruct (for_each_range_total
              (fun i vec =>
                 let? qx := Act_qx xml (i - 1) Sex TableId BirthYear
                              RetirementAge Layer in
                 let? prev := getitem vec (i - 1) in
                 let? vec := setitem vec i (prev * (1 - qx)) in
                 let? cur := getitem vec i in
                 setitem vec i (_excel_round cur (ROUND_LX K)))
              (lx_inv limit) 1 (limit + 1)
              (<[0%nat := Qc_of_Z 1000000]> (zeros (limit + 1))))
    as (vec & Hrun & Hinv).
  - lia.
  - now apply lx_inv_init.
  - intros i vec Hi Hinv.
    destruct (Hqx (i - 1)%Z) as [q Hq]; [ lia | ].
    fold (qx (i - 1)). rewrite Hq. simpl.
    pose proof Hinv as (Hlen & _ & _).
    destruct (lookup_lt_is_Some_2 vec (Z.to_nat (i - 1))) as [prev Hprev];
      [ lia | ].
    rewrite (getitem_nonneg _ _ prev) by (lia || exact Hprev). simpl.
    rewrite store_rounded by lia.
    eexists. split; [ reflexivity | ].
    apply lx_inv_step; (lia || assumption).
  - exists vec. split; [ exact Hrun | ].
    destruct Hinv as (Hlen & H0 & Hrec). repeat split; try assumption.
    intros a Ha. apply Hrec. lia.
Qed.

End Lx.

(** *** Survivorship does not increase *)

Lemma Qcdiv_small (y q : Qc) :
  0 <= y -> 0 < q -> y + y < q -> 0 <= y / q /\ y / q < Q2Qc (1 # 2).
Proof.
  intros Hy Hq H.
  assert (Hne : q <> 0).
  { intros ->. exact (Qclt_not_le _ _ Hq (Qcle_refl _)). }
  split.
  - replace 0 with (0 / q) by (field; exact Hne).
    now apply Qcdiv_le_mono.
  - unfold Qcdiv, Qcinv. qc_to_q.
    change (this y * / this q)%Q with (this y / this q)%Q.
    apply Qlt_shift_div_r; [ exact Hq | lra ].
Qed.

Lemma million_on_grid (e : Z) :
  (e <= 6)%Z -> exists z : Z, Qc_of_Z 1000000 = Qc_of_Z z * pow10 e.
Proof.
  intros He. unfold pow10. destruct (0 <=? e)%Z eqn:E.
  - exists (10 ^ (6 - e))%Z. rewrite <- Qc_of_Z_mult. f_equal.
    rewrite <- Z.pow_add_r by lia. replace (6 - e + e)%Z with 6%Z by lia.
    reflexivity.
  - exists (1000000 * 10 ^ (- e))%Z. rewrite Qc_of_Z_mult.
    assert (Hne : Qc_of_Z (10 ^ (- e)) <> 0).
    { rewrite <- Qc_of_Z_0. intros C. apply Qc_of_Z_inj in C.
      assert (0 < 10 ^ (- e))%Z by (apply Z.pow_pos_nonneg; lia). lia. }
    field. exact Hne.
Qed.

(** Rounding a number between zero and one million never exceeds one
    million, whatever the number of decimal places. *)
Lemma million_round_le (y : Qc) (digits : Z) :
  0 <= y -> y <= Qc_of_Z 1000000 ->
  _excel_round y digits <= Qc_of_Z 1000000.
Proof.
  intros Hy Hle. destruct (Z_le_gt_dec (- digits) 6) as [He|He].
  - destruct (million_on_grid (- digits) He) as [z Hz].
    rewrite Hz in *. now apply _excel_round_le_grid.
  - unfold _excel_round.
    assert (Hq : Qc_of_Z 10000000 <= pow10 (- digits)).
    { unfold pow10. assert (E : (0 <=? - digits)%Z = true) by lia. rewrite E.
      apply Qc_of_Z_le. change 10000000%Z with (10 ^ 7)%Z.
      apply Z.pow_le_mono_r; lia. }
    destruct (Qcdiv_small y (pow10 (- digits))) as [H0 H1];
      [ exact Hy | apply pow10_pos | | ].
    + eapply Qclt_le_trans; [ | exact Hq ].
      eapply Qcle_lt_trans with (y := Qc_of_Z 1000000 + Qc_of_Z 1000000).
      * qc_to_q. lra.
      * rewrite <- Qc_of_Z_plus. apply Qc_of_Z_lt. lia.
    + rewrite (half_up_small _ H0 H1). rewrite Qc_of_Z_0.
      replace (0 * pow10 (- digits)) with 0 by ring.
      rewrite <- Qc_of_Z_0. apply Qc_of_Z_le. lia.
Qed.

Section LxMonotone.
Variable K : constants.
Variable qx : Z -> Result Qc.
Variable limit : Z.
Variable vec : list Qc.
Hypothesis Hrec : lx_recurrence K qx limit vec.
Hypothesis Hqx :
  forall a q, (0 <= a < limit)%Z -> qx a = Ok q -> 0 <= q /\ q <= 1.

(** An entry is non-negative and bounds the rounding of anything below. *)
Let stable (u : Qc) : Prop :=
  0 <= u /\ forall y, 0 <= y -> y <= u -> _excel_round y (ROUND_LX K) <= u.

Lemma shrink (u q : Qc) :
  0 <= u -> 0 <= q -> q <= 1 -> 0 <= u * (1 - q) /\ u * (1 - q) <= u.
Proof. intros. qc_to_q. split; nra. Qed.

Lemma lx_stable (m : nat) :
  (Z.of_nat m <= limit)%Z -> exists u, vec !! m = Some u /\ stable u.
Proof.
  destruct Hrec as (Hlen & H0 & Hstep).
  induction m as [|m IH]; intros Hm.
  - exists (Qc_of_Z 1000000). split; [ exact H0 | ]. split.
    + rewrite <- Qc_of_Z_0. apply Qc_of_Z_le. lia.
    + intros y Hy Hle. now apply million_round_le.
  - destruct IH as (u & Hu & Hu0 & Hub); [ lia | ].
    destruct (Hstep (Z.of_nat (S m))) as (prev & q & Hq & Hprev & Hcur);
      [ lia | ].
    replace (Z.to_nat (Z.of_nat (S m) - 1)) with m in Hprev by lia.
    rewrite Nat2Z.id in Hcur. rewrite Hu in Hprev. injection Hprev as <-.
    destruct (Hqx (Z.of_nat (S m) - 1)%Z q) as [Hq0 Hq1]; [ lia | exact Hq | ].
    destruct (shrink u q Hu0 Hq0 Hq1) as [Hs0 Hs1].
    eexists. split; [ exact Hcur | ]. split.
    + now apply _excel_round_nonneg.
    + intros y Hy Hle. now apply _excel_round_le_rounded.
Qed.

Lemma lx_non_increasing (a : Z) :
  (1 <= a <= limit)%Z ->
  exists u v,
    vec !! Z.to_nat (a - 1) = Some u /\ vec !! Z.to_nat a = Some v /\ v <= u.
Proof.
  intros Ha. destruct Hrec as (Hlen & H0 & Hstep).
  destruct (Hstep a Ha) as (prev & q & Hq & Hprev & Hcur).
  destruct (lx_stable (Z.to_nat (a - 1))) as (u & Hu & Hu0 & Hub); [ lia | ].
  rewrite Hu in Hprev. injection Hprev as <-.
  destruct (Hqx (a - 1)%Z q) as [Hq0 Hq1]; [ lia | exact Hq | ].
  destruct (shrink u q Hu0 Hq0 Hq1) as [Hs0 Hs1].
  exists u, (_excel_round (u * (1 - q)) (ROUND_LX K)).
  repeat split; try assumption. now apply Hub.
Qed.

End LxMonotone.

(** ** The other vector builders *)

Lemma setitem_inv (vec vec' : list Qc) (i : Z) (v : Qc) :
  setitem vec i v = Ok vec' -> length vec' = length vec.
Proof.
  unfold setitem. destruct (norm_index vec i); intros [= <-].
  apply length_insert.
Qed.

Lemma for_each_preserves {S : Type} (P : S -> Prop) (body : Z -> S -> Result S)
    (xs : list Z) (s0 s' : S) :
  (forall x s s1, P s -> body x s = Ok s1 -> P s1) ->
  P s0 -> for_each xs body s0 = Ok s' -> P s'.
Proof.
  intros Hstep. revert s0. induction xs as [|x xs IH]; intros s0 H0; simpl.
  - intros [= <-]. exact H0.
  - intros Hrun. apply rbind_ok in Hrun as (s1 & E1 & Hrun).
    eapply IH; [ | exact Hrun ]. eapply Hstep; eauto.
Qed.

(** Every builder loop body ends with the same two assignments, so it keeps
    the length of the vector. *)
Lemma store_rounded_length (vec vec' : list Qc) (i : Z) (e : Qc) (digits : Z) :
  (let? vec1 := setitem vec i e in
   let? cur := getitem vec1 i in
   setitem vec1 i (_excel_round cur digits)) = Ok vec' ->
  length vec' = length vec.
Proof.
  intros H. apply rbind_ok in H as (vec1 & E1 & H).
  apply rbind_ok in H as (cur & _ & H).
  apply setitem_inv in E1, H. congruence.
Qed.

Lemma limit_of_nonneg (K : constants) (limit : Z) :
  (0 <= limit)%Z -> limit_of K limit = limit.
Proof. intros H. unfold limit_of. assert (E : (limit =? -1)%Z = false) by lia.
  now rewrite E. Qed.

Section Builders.
Variable K : constants.
Variable xml : Result qx_tables.
Variables (Sex TableId : string) (BirthYear RetirementAge Layer : Z).

Lemma Vec_lx_length (EndAge : Z) (vec : list Qc) :
  Vec_lx K xml EndAge Sex TableId BirthYear RetirementAge Layer = Ok vec ->
  (0 <= limit_of K EndAge)%Z
  /\ length vec = Z.to_nat (limit_of K EndAge + 1).
Proof.
  intros H. destruct (Z_lt_le_dec (limit_of K EndAge) 0) as [Hneg|Hpos].
  - rewrite Vec_lx_negative in H by exact Hneg. discriminate.
  - split; [ exact Hpos | ]. rewrite Vec_lx_unfold in H by exact Hpos.
    eapply (for_each_preserves
              (fun v => length v = Z.to_nat (limit_of K EndAge + 1)));
      [ | | exact H ].
    + intros i s s1 Hs Hb.
      apply rbind_ok in Hb as (q & _ & Hb).
      apply rbind_ok in Hb as (prev & _ & Hb).
      apply store_rounded_length in Hb. congruence.
    + now rewrite length_insert, length_zeros.
Qed.

(** *** Deaths *)

Lemma Vec_tx_total (EndAge : Z) (lx : list Qc) :
  (0 <= limit_of K EndAge)%Z ->
  Vec_lx K xml (limit_of K EndAge) Sex TableId BirthYear RetirementAge Layer
  = Ok lx ->
  exists tx,
    Vec_tx K xml EndAge Sex TableId BirthYear RetirementAge Layer = Ok tx
    /\ tx_of K (limit_of K EndAge) lx tx.
Proof.
  intros Hlim Hlx. unfold Vec_tx. fold (limit_of K EndAge).
  set (limit := limit_of K EndAge) in *.
  assert (E : (limit <? 0)%Z = false) by lia. rewrite E. rewrite Hlx. simpl.
  apply Vec_lx_length in Hlx as [_ Hlen].
  rewrite (limit_of_nonneg K limit Hlim) in Hlen.
  pose (I := fun (j : Z) (vec : list Qc) =>
    length vec = Z.to_nat (limit + 1)
    /\ vec !! Z.to_nat limit = Some 0
    /\ forall i : Z, (0 <= i < j)%Z ->
         exists a b,
           lx !! Z.to_nat i = Some a
           /\ lx !! Z.to_nat (i + 1) = Some b
           /\ vec !! Z.to_nat i = Some (_excel_round (a - b) (ROUND_TX K))).
  match goal with
  | |- exists tx, for_each _ ?body _ = _ /\ _ =>
      destruct (for_each_range_total body I 0 limit (zeros (limit + 1)))
        as (tx & Hrun & Hinv)
  end.
  - exact Hlim.
  - repeat split.
    + apply length_zeros.
    + apply lookup_zeros. lia.
    + intros i Hi. lia.
  - intros i vec Hi (Hl & Hz & Hrec).
    destruct (lookup_lt_is_Some_2 lx (Z.to_nat i)) as [a Ha]; [ lia | ].
    destruct (lookup_lt_is_Some_2 lx (Z.to_nat (i + 1))) as [b Hb]; [ lia | ].
    rewrite (getitem_nonneg _ _ a) by (lia || exact Ha). simpl.
    rewrite (getitem_nonneg _ _ b) by (lia || exact Hb). simpl.
    rewrite store_rounded by lia.
    eexists. split; [ reflexivity | ]. repeat split.
    + now rewrite length_insert.
    + rewrite list_lookup_insert_ne by lia. exact Hz.
    + intros j Hj. destruct (Z.eq_dec j i) as [->|Hne].
      * exists a, b. repeat split; try assumption.
        apply list_lookup_insert_eq. lia.
      * destruct (Hrec j) as (a' & b' & Ha' & Hb' & Hv); [ lia | ].
        exists a', b'. repeat split; try assumption.
        rewrite list_lookup_insert_ne by lia. exact Hv.
  - exists tx. split; [ exact Hrun | exact Hinv ].
Qed.

(** Whatever [Vec_tx] returns is the death vector of the survivors that
    [Vec_lx] returns for the same limit. *)
Lemma Vec_tx_sound (EndAge : Z) (tx : list Qc) :
  Vec_tx K xml EndAge Sex TableId BirthYear RetirementAge Layer = Ok tx ->
  (0 <= limit_of K EndAge)%Z
  /\ exists lx,
       Vec_lx K xml (limit_of K EndAge) Sex TableId BirthYear RetirementAge
         Layer = Ok lx
       /\ tx_of K (limit_of K EndAge) lx tx.
Proof.
  intros H. pose proof H as H'. unfold Vec_tx in H'.
  fold (limit_of K EndAge) in H'.
  destruct (limit_of K EndAge <? 0)%Z eqn:E; [ discriminate | ].
  apply rbind_ok in H' as (lx & Hlx & _).
  split; [ lia | ]. exists lx. split; [ exact Hlx | ].
  destruct (Vec_tx_total EndAge lx) as (tx' & Htx' & Hspec);
    [ lia | exact Hlx | ].
  rewrite H in Htx'. injection Htx' as <-. exact Hspec.
Qed.

(** [Act_tx] reads the one slot its own vector never fills. *)
Lemma Act_tx_zero (Age : Z) (r : Qc) :
  Act_tx K xml Age Sex TableId BirthYear RetirementAge Layer = Ok r -> r = 0.
Proof.
  unfold Act_tx. intros H. apply rbind_ok in H as (tx & Htx & Hget).
  apply Vec_tx_sound in Htx as (Hlim & lx & _ & Hlen & Hz & _).
  unfold limit_of in *. destruct (Age =? -1)%Z eqn:E.
  - assert (Age = -1)%Z by lia. subst Age.
    rewrite (getitem_minus_1 tx 0) in Hget; [ congruence | ].
    rewrite Hlen. rewrite <- Hz. f_equal. lia.
  - assert (0 <= Age)%Z by lia.
    rewrite (getitem_nonneg tx Age 0) in Hget by (lia || exact Hz).
    congruence.
Qed.

End Builders.

Section Discounted.
Variable K : constants.
Variable xml : Result qx_tables.
Variables (Sex TableId : string) (InterestRate : Qc).
Variables (BirthYear RetirementAge Layer : Z).

(** *** Discounted survivors *)

Lemma Vec_Dx_total (EndAge : Z) (lx : list Qc) :
  (0 <= limit_of K EndAge)%Z ->
  1 + InterestRate <> 0 ->
  Vec_lx K xml (limit_of K EndAge) Sex TableId BirthYear RetirementAge Layer
  = Ok lx ->
  exists dx,
    Vec_Dx K xml EndAge Sex TableId InterestRate BirthYear RetirementAge Layer
    = Ok dx
    /\ Dx_of K (limit_of K EndAge) (1 / (1 + InterestRate)) lx dx.
Proof.
  intros Hlim Hi Hlx. unfold Vec_Dx. fold (limit_of K EndAge).
  set (limit := limit_of K EndAge) in *.
  assert (E : (limit <? 0)%Z = false) by lia. rewrite E.
  rewrite (fdiv_ok _ _ Hi). simpl. rewrite Hlx. simpl.
  apply Vec_lx_length in Hlx as [_ Hlen].
  rewrite (limit_of_nonneg K limit Hlim) in Hlen.
  set (v := 1 / (1 + InterestRate)).
  pose (I := fun (j : Z) (vec : list Qc) =>
    length vec = Z.to_nat (limit + 1)
    /\ forall i : Z, (0 <= i < j)%Z ->
         exists a,
           lx !! Z.to_nat i = Some a
           /\ vec !! Z.to_nat i
              = Some (_excel_round (a * fpow v i) (ROUND_DX K))).
  match goal with
  | |- exists dx, for_each _ ?body _ = _ /\ _ =>
      destruct (for_each_range_total body I 0 (limit + 1) (zeros (limit + 1)))
        as (dx & Hrun & Hinv)
  end.
  - lia.
  - split; [ apply length_zeros | intros i Hi'; lia ].
  - intros i vec Hi' (Hl & Hrec).
    destruct (lookup_lt_is_Some_2 lx (Z.to_nat i)) as [a Ha]; [ lia | ].
    rewrite (getitem_nonneg _ _ a) by (lia || exact Ha). simpl.
    rewrite store_rounded by lia.
    eexists. split; [ reflexivity | ]. split.
    + now rewrite length_insert.
    + intros j Hj. destruct (Z.eq_dec j i) as [->|Hne].
      * exists a. split; [ exact Ha | ]. apply list_lookup_insert_eq. lia.
      * destruct (Hrec j) as (a' & Ha' & Hv); [ lia | ].
        exists a'. split; [ exact Ha' | ].
        rewrite list_lookup_insert_ne by lia. exact Hv.
  - exists dx. split; [ exact Hrun | ]. destruct Hinv as [Hl Hrec].
    split; [ exact Hl | ]. intros i Hi'. apply Hrec. lia.
Qed.

Lemma Vec_Dx_sound (EndAge : Z) (dx : list Qc) :
  Vec_Dx K xml EndAge Sex TableId InterestRate BirthYear RetirementAge Layer
  = Ok dx ->
  (0 <= limit_of K EndAge)%Z
  /\ 1 + InterestRate <> 0
  /\ exists lx,
       Vec_lx K xml (limit_of K EndAge) Sex TableId BirthYear RetirementAge
         Layer = Ok lx
       /\ Dx_of K (limit_of K EndAge) (1 / (1 + InterestRate)) lx dx.
Proof.
  intros H. pose proof H as H'. unfold Vec_Dx in H'.
  fold (limit_of K EndAge) in H'.
  destruct (limit_of K EndAge <? 0)%Z eqn:E; [ discriminate | ].
  apply rbind_ok in H' as (v & Hv & H').
  apply fdiv_inv in Hv as [Hne _].
  apply rbind_ok in H' as (lx & Hlx & _).
  split; [ lia | ]. split; [ exact Hne | ]. exists lx. split; [ exact Hlx | ].
  destruct (Vec_Dx_total EndAge lx) as (dx' & Hdx' & Hspec);
    [ lia | exact Hne | exact Hlx | ].
  rewrite H in Hdx'. injection Hdx' as <-. exact Hspec.
Qed.

(** *** Backward sums *)

Lemma accumulate_down_total (temp : list Qc) (digits : Z) :
  (0 <= MAX_AGE K)%Z ->
  length temp = Z.to_nat (MAX_AGE K + 1) ->
  exists vec,
    accumulate_down K temp digits = Ok vec
    /\ backward_sum K digits temp vec.
Proof.
  intros Hmax Hlen. unfold accumulate_down.
  destruct (lookup_lt_is_Some_2 temp (Z.to_nat (MAX_AGE K))) as [top Htop];
    [ lia | ].
  rewrite (getitem_nonneg _ _ top) by (lia || exact Htop). simpl.
  rewrite setitem_nonneg by (rewrite length_zeros; lia). simpl.
  pose (I := fun (i : Z) (vec : list Qc) =>
    length vec = Z.to_nat (MAX_AGE K + 1)
    /\ vec !! Z.to_nat (MAX_AGE K) = temp !! Z.to_nat (MAX_AGE K)
    /\ forall j : Z, (i < j < MAX_AGE K)%Z ->
         exists a b,
           vec !! Z.to_nat (j + 1) = Some a
           /\ temp !! Z.to_nat j = Some b
           /\ vec !! Z.to_nat j = Some (_excel_round (a + b) digits)).
  match goal with
  | |- exists vec, for_each _ ?body ?s0 = _ /\ _ =>
      destruct (for_each_range_down_total body I (MAX_AGE K - 1) (-1) s0)
        as (vec & Hrun & Hinv)
  end.
  - lia.
  - repeat split.
    + now rewrite length_insert, length_zeros.
    + rewrite Htop. apply list_lookup_insert_eq. rewrite length_zeros. lia.
    + intros j Hj. lia.
  - intros i vec Hi (Hl & Htopv & Hrec).
    destruct (lookup_lt_is_Some_2 vec (Z.to_nat (i + 1))) as [a Ha]; [ lia | ].
    destruct (lookup_lt_is_Some_2 temp (Z.to_nat i)) as [b Hb]; [ lia | ].
    rewrite (getitem_nonneg _ _ a) by (lia || exact Ha). simpl.
    rewrite (getitem_nonneg _ _ b) by (lia || exact Hb). simpl.
    rewrite store_rounded by lia.
    eexists. split; [ reflexivity | ]. repeat split.
    + now rewrite length_insert.
    + rewrite list_lookup_insert_ne by lia. exact Htopv.
    + intros j Hj. destruct (Z.eq_dec j i) as [->|Hne].
      * exists a, b. repeat split; try assumption.
        -- rewrite list_lookup_insert_ne by lia. exact Ha.
        -- apply list_lookup_insert_eq. lia.
      * destruct (Hrec j) as (a' & b' & Ha' & Hb' & Hv); [ lia | ].
        exists a', b'. repeat split; try assumption.
        -- rewrite list_lookup_insert_ne by lia. exact Ha'.
        -- rewrite list_lookup_insert_ne by lia. exact Hv.
  - exists vec. split; [ exact Hrun | ]. destruct Hinv as (Hl & Ht & Hrec).
    repeat split; try assumption. intros i Hi. apply Hrec. lia.
Qed.

(** [Vec_Nx] returns whenever [Vec_Dx(-1, ...)] does, and what it returns is
    the backward sum of that vector, rounded with [ROUND_DX]. *)
Lemma Vec_Nx_total (dx : list Qc) :
  Vec_Dx K xml (-1) Sex TableId InterestRate BirthYear RetirementAge Layer
  = Ok dx ->
  exists nx,
    Vec_Nx K xml Sex TableId InterestRate BirthYear RetirementAge Layer = Ok nx
    /\ backward_sum K (ROUND_DX K) dx nx.
Proof.
  intros Hdx. unfold Vec_Nx. rewrite Hdx. simpl.
  apply Vec_Dx_sound in Hdx as (Hlim & _ & lx & _ & Hlen & _).
  change (limit_of K (-1)) with (MAX_AGE K) in *.
  now apply accumulate_down_total.
Qed.

End Discounted.

(** ** End age [-1] *)

Lemma Vec_lx_minus_1 (K : constants) (xml : Result qx_tables)
    (Sex TableId : string) (BirthYear RetirementAge Layer : Z) :
  Vec_lx K xml (-1) Sex TableId BirthYear RetirementAge Layer
  = Vec_lx K xml (MAX_AGE K) Sex TableId BirthYear RetirementAge Layer.
Proof.
  unfold Vec_lx. change (-1 =? -1)%Z with true. cbv iota.
  now destruct (MAX_AGE K =? -1)%Z.
Qed.

Lemma Vec_Dx_minus_1 (K : constants) (xml : Result qx_tables)
    (Sex TableId : string) (InterestRate : Qc)
    (BirthYear RetirementAge Layer : Z) :
  Vec_Dx K xml (-1) Sex TableId InterestRate BirthYear RetirementAge Layer
  = Vec_Dx K xml (MAX_AGE K) Sex TableId InterestRate BirthYear RetirementAge
      Layer.
Proof.
  unfold Vec_Dx. change (-1 =? -1)%Z with true. cbv iota.
  now destruct (MAX_AGE K =? -1)%Z.
Qed.

(** On a vector of [m + 1] entries, index [-1] and index [m] read the same
    entry. *)
Lemma getitem_last (vec : list Qc) (m : Z) :
  (0 <= m)%Z -> length vec = Z.to_nat (m + 1) ->
  exists v, vec !! Z.to_nat m = Some v
            /\ getitem vec (-1) = Ok v /\ getitem vec m = Ok v.
Proof.
  intros Hm Hlen.
  destruct (lookup_lt_is_Some_2 vec (Z.to_nat m)) as [v Hv]; [ lia | ].
  exists v. split; [ exact Hv | ]. split.
  - apply getitem_minus_1. rewrite Hlen.
    replace (Z.to_nat (m + 1) - 1)%nat with (Z.to_nat m) by lia. exact Hv.
  - apply getitem_nonneg; [ lia | exact Hv ].
Qed.

(** The discount factor [1 / (1 + InterestRate)] is the first thing the
    builder computes once the limit is accepted: at the rate -1 it raises. *)
Lemma Vec_Dx_rate_minus_1 (K : constants) (xml : Result qx_tables)
    (EndAge : Z) (Sex TableId : string) (BirthYear RetirementAge Layer : Z) :
  (0 <= limit_of K EndAge)%Z ->
  Vec_Dx K xml EndAge Sex TableId (- (1)) BirthYear RetirementAge Layer
  = Err (ZeroDivisionError "float division by zero").
Proof.
  intros H. unfold Vec_Dx. fold (limit_of K EndAge).
  assert (E : (limit_of K EndAge <? 0)%Z = false) by lia. now rewrite E.
Qed.

(** [vec[-1]] and [vec[m]] on a vector of [m + 1] entries, with the last
    entry named. *)
Lemma getitem_last_entry (vec : list Qc) (m : Z) :
  (0 <= m)%Z -> length vec = Z.to_nat (m + 1) ->
  exists v, last vec = Some v
            /\ vec !! Z.to_nat m = Some v
            /\ getitem vec (-1) = Ok v /\ getitem vec m = Ok v.
Proof.
  intros Hm Hlen.
  destruct (getitem_last vec m Hm Hlen) as (v & Hv & H1 & H2).
  exists v. split; [ | auto ].
  rewrite last_lookup, Hlen.
  replace (Init.Nat.pred (Z.to_nat (m + 1))) with (Z.to_nat m) by lia.
  exact Hv.
Qed.

(** ** The memoized accessors *)

Lemma mbind_ok {St A B : Type} (m : SM St A) (k : A -> SM St B)
    (w w' : St) (b : B) :
  mbind m k w = (Ok b, w') ->
  exists a w1, m w = (Ok a, w1) /\ k a w1 = (Ok b, w').
Proof.
  unfold mbind. destruct (m w) as [[a|e] w1]; intros H.
  - eauto.
  - discriminate.
Qed.

Lemma mbind_run {St A B : Type} (m : SM St A) (k : A -> SM St B)
    (w w1 : St) (a : A) :
  m w = (Ok a, w1) -> mbind m k w = k a w1.
Proof. unfold mbind. now intros ->. Qed.

Lemma mbind_fail {St A B : Type} (m : SM St A) (k : A -> SM St B)
    (w w1 : St) (e : exn) :
  m w = (Err e, w1) -> mbind m k w = (Err e, w1).
Proof. unfold mbind. now intros ->. Qed.

Lemma cache_grows_refl (w : World) : cache_grows w w.
Proof. intros key v H. exact H. Qed.

Lemma cache_grows_trans (w1 w2 w3 : World) :
  cache_grows w1 w2 -> cache_grows w2 w3 -> cache_grows w1 w3.
Proof. intros H12 H23 key v H. apply H23, H12, H. Qed.

Section Memoized.
Variable float_str : Qc -> string.
Variables (Kind : string) (build : Result (list Qc)) (Age : Z).
Variables (Sex TableId : string) (InterestRate : Qc).
Variables (BirthYear RetirementAge Layer : Z).

Let key : string :=
  BuildCacheKey float_str Kind Age Sex TableId InterestRate BirthYear
    RetirementAge Layer.

Let run : M Qc :=
  memoized float_str Kind build Age Sex TableId InterestRate BirthYear
    RetirementAge Layer.

(** A hit: the stored value is returned and nothing changes. *)
Lemma memoized_hit (w : World) (v : Qc) :
  cached w key = Some v -> run w = (Ok v, w).
Proof.
  unfold cached, run, memoized. fold key. intros H.
  destruct (cache w) as [c|] eqn:Ec; [ | discriminate ].
  unfold mbind, _ensure_cache, cache_contains, cache_get.
  rewrite Ec. simpl. rewrite Ec.
  rewrite bool_decide_eq_true_2 by (rewrite H; eauto). rewrite Ec.
  now rewrite H.
Qed.

(** A miss: the builder is called once, and its value at [Age] is stored
    under the key and returned. *)
Lemma memoized_miss (w : World) (vec : list Qc) (v : Qc) :
  cached w key = None ->
  build = Ok vec ->
  getitem vec Age = Ok v ->
  run w = (Ok v, {| cache := Some (<[key := v]> (default ∅ (cache w)));
                    builder_calls := S (builder_calls w) |}).
Proof.
  unfold cached, run, memoized. fold key. intros H Hb Hg.
  unfold mbind, _ensure_cache, InitializeCache, cache_contains, call_builder,
    lift, cache_set, mret.
  destruct (cache w) as [c|] eqn:Ec; simpl.
  - rewrite Ec.
    rewrite bool_decide_eq_false_2 by (rewrite H; intros [? ?]; discriminate).
    simpl. rewrite Hb, Hg. simpl. rewrite Ec. reflexivity.
  - rewrite bool_decide_eq_false_2
      by (rewrite lookup_empty; intros [? ?]; discriminate).
    simpl. rewrite Hb, Hg. reflexivity.
Qed.

(** A miss on which the builder or the extraction raises: nothing is
    stored. *)
Lemma memoized_miss_fail (w : World) (e : exn) :
  cached w key = None ->
  (let? vec := build in getitem vec Age) = Err e ->
  run w = (Err e, {| cache := Some (default ∅ (cache w));
                     builder_calls := S (builder_calls w) |}).
Proof.
  unfold cached, run, memoized. fold key. intros H Hb.
  unfold mbind, _ensure_cache, InitializeCache, cache_contains, call_builder,
    lift, cache_set, mret.
  destruct (cache w) as [c|] eqn:Ec; simpl.
  - rewrite Ec.
    rewrite bool_decide_eq_false_2 by (rewrite H; intros [? ?]; discriminate).
    simpl. rewrite Ec. destruct build as [vec|e']; simpl in *.
    + now rewrite Hb.
    + congruence.
  - rewrite bool_decide_eq_false_2
      by (rewrite lookup_empty; intros [? ?]; discriminate).
    simpl. destruct build as [vec|e']; simpl in *.
    + now rewrite Hb.
    + congruence.
Qed.

(** Every run, failed or not, keeps what the cache held. *)
Lemma memoized_grows (w w' : World) (r : Result Qc) :
  run w = (r, w') -> cache_grows w w'.
Proof.
  intros Hrun. destruct (cached w key) as [v|] eqn:Ek.
  - rewrite (memoized_hit w v Ek) in Hrun. injection Hrun as _ <-.
    apply cache_grows_refl.
  - destruct (let? vec := build in getitem vec Age) as [v|e] eqn:Eb.
    + apply rbind_ok in Eb as (vec & Hb & Hg).
      rewrite (memoized_miss w vec v Ek Hb Hg) in Hrun.
      injection Hrun as _ <-. intros k u Hk. unfold cached in *. simpl.
      destruct (cache w) as [c|]; [ | discriminate ]. simpl.
      destruct (decide (k = key)) as [->|Hne]; [ congruence | ].
      now rewrite lookup_insert_ne.
    + rewrite (memoized_miss_fail w e Ek Eb) in Hrun.
      injection Hrun as _ <-. intros k u Hk. unfold cached in *. simpl.
      destruct (cache w) as [c|]; [ exact Hk | discriminate ].
Qed.

(** After a run that returned [v], the cache holds [v] under the key. *)
Lemma memoized_stores (w w' : World) (v : Qc) :
  run w = (Ok v, w') -> cached w' key = Some v.
Proof.
  intros Hrun. destruct (cached w key) as [u|] eqn:Ek.
  - rewrite (memoized_hit w u Ek) in Hrun. injection Hrun as <- <-. exact Ek.
  - destruct (let? vec := build in getitem vec Age) as [u|e] eqn:Eb.
    + apply rbind_ok in Eb as (vec & Hb & Hg).
      rewrite (memoized_miss w vec u Ek Hb Hg) in Hrun.
      injection Hrun as <- <-. unfold cached. simpl.
      apply lookup_insert_eq.
    + rewrite (memoized_miss_fail w e Ek Eb) in Hrun. discriminate.
Qed.

(** Calling again after a successful call: same value, same state, and in
    particular the same count of builder calls. *)
Lemma memoized_again (w w' : World) (v : Qc) :
  run w = (Ok v, w') -> run w' = (Ok v, w').
Proof. intros H. apply memoized_hit. eapply memoized_stores, H. Qed.

(** More generally, in any later state the call is a hit. *)
Lemma memoized_later (w w' w2 : World) (v : Qc) :
  run w = (Ok v, w') -> cache_grows w' w2 -> run w2 = (Ok v, w2).
Proof.
  intros H Hg. apply memoized_hit. apply Hg. eapply memoized_stores, H.
Qed.

End Memoized.

(** ** The deduction term *)

Lemma Qc_of_Z_neq_0 (k : Z) : k <> 0%Z -> Qc_of_Z k <> 0.
Proof.
  intros H C. rewrite <- Qc_of_Z_0 in C. apply Qc_of_Z_inj in C. contradiction.
Qed.

Lemma Qc_sum_nil : Qc_sum [] = 0.
Proof. reflexivity. Qed.

Lemma Qc_sum_cons (x : Qc) (xs : list Qc) : Qc_sum (x :: xs) = x + Qc_sum xs.
Proof. reflexivity. Qed.

Lemma Qc_sum_app (xs ys : list Qc) : Qc_sum (xs ++ ys) = Qc_sum xs + Qc_sum ys.
Proof.
  induction xs as [|x xs IH].
  - rewrite app_nil_l, Qc_sum_nil. ring.
  - rewrite <- app_comm_cons, !Qc_sum_cons, IH. ring.
Qed.

(** The accumulation loop of [Act_DeductionTerm] adds up the summands. *)
Lemma deduction_loop (k : Z) (i : Qc) (ls : list Z) (d0 : Qc) :
  k <> 0%Z ->
  (forall l, l ∈ ls -> 1 + Qc_of_Z l / Qc_of_Z k * i <> 0) ->
  for_each ls (fun l deduction =>
      let? lk := fdiv (Qc_of_Z l) (Qc_of_Z k) in
      let? term := fdiv lk (1 + lk * i) in
      Ok (deduction + term)) d0
  = Ok (d0 + Qc_sum (deduction_summand k i <$> ls)).
Proof.
  intros Hk. revert d0. induction ls as [|l ls IH]; intros d0 Hden.
  - cbn [for_each fmap list_fmap]. rewrite Qc_sum_nil. f_equal. ring.
  - cbn [for_each fmap list_fmap].
    rewrite (fdiv_ok _ _ (Qc_of_Z_neq_0 k Hk)). cbn [rbind].
    rewrite fdiv_ok by (apply Hden; left). cbn [rbind].
    rewrite IH by (intros l' Hl'; apply Hden; now right).
    rewrite Qc_sum_cons. f_equal. unfold deduction_summand. ring.
Qed.

Lemma Act_DeductionTerm_nonpos (k : Z) (i : Qc) :
  (k <= 0)%Z -> Act_DeductionTerm k i = Ok 0.
Proof.
  intros H. unfold Act_DeductionTerm.
  assert (E : (k >? 0)%Z = false) by lia. now rewrite E.
Qed.

Lemma Act_DeductionTerm_pos (k : Z) (i : Qc) :
  (0 < k)%Z ->
  (forall l, (0 <= l < k)%Z -> 1 + Qc_of_Z l / Qc_of_Z k * i <> 0) ->
  Act_DeductionTerm k i = Ok (DeductionTerm_formula k i).
Proof.
  intros Hk Hden. unfold Act_DeductionTerm.
  assert (E : (k >? 0)%Z = true) by lia. rewrite E.
  rewrite deduction_loop.
  - cbn [rbind]. rewrite fdiv_ok by (apply Qc_of_Z_neq_0; lia).
    f_equal. unfold DeductionTerm_formula. field. apply Qc_of_Z_neq_0. lia.
  - lia.
  - intros l Hl. apply Hden. unfold range in Hl. apply elem_of_seqZ in Hl. lia.
Qed.

(** Without interest the summands are [l/k], and they add up to
    [m (m-1) / (2k)] over the first [m] indices. *)
Lemma deduction_sum_zero_rate (k : Z) (m : nat) :
  k <> 0%Z ->
  Qc_sum (deduction_summand k 0 <$> seqZ 0 (Z.of_nat m))
  = Qc_of_Z (Z.of_nat m * (Z.of_nat m - 1)) / (Qc_of_Z 2 * Qc_of_Z k).
Proof.
  intros Hk. pose proof (Qc_of_Z_neq_0 k Hk) as Hk'.
  assert (H2 : Qc_of_Z 2 <> 0) by (apply Qc_of_Z_neq_0; lia).
  induction m as [|m IH].
  - change (seqZ 0 (Z.of_nat 0)) with (@nil Z).
    cbn [fmap list_fmap]. rewrite Qc_sum_nil.
    change (Z.of_nat 0 * (Z.of_nat 0 - 1))%Z with 0%Z.
    rewrite Qc_of_Z_0. field. auto.
  - rewrite seqZ_S, fmap_app, Qc_sum_app, IH.
    cbn [fmap list_fmap]. rewrite Qc_sum_cons, Qc_sum_nil.
    unfold deduction_summand. rewrite Z.add_0_l.
    replace (Z.of_nat (S m) - 1)%Z with (Z.of_nat m) by lia.
    replace (Z.of_nat (S m)) with (Z.of_nat m + 1)%Z by lia.
    rewrite !Qc_of_Z_mult, !Qc_of_Z_plus, Qc_of_Z_1.
    replace (Qc_of_Z (Z.of_nat m - 1)) with (Qc_of_Z (Z.of_nat m) - 1).
    + replace (Qc_of_Z 2) with (1 + 1) in *.
      * field. split; [ exact Hk' | ].
        replace (1 + 1) with (Qc_of_Z 2)
          by (apply Qc_is_canon; vm_compute; reflexivity); exact H2.
      * apply Qc_is_canon. vm_compute. reflexivity.
    + replace (Z.of_nat m - 1)%Z with (Z.of_nat m + -1)%Z by lia.
      rewrite Qc_of_Z_plus. f_equal.
Qed.

Lemma Act_DeductionTerm_zero_rate (k : Z) :
  (0 < k)%Z ->
  Act_DeductionTerm k 0 = Ok (Qc_of_Z (k - 1) / (Qc_of_Z 2 * Qc_of_Z k)).
Proof.
  intros Hk. pose proof (Qc_of_Z_neq_0 k ltac:(lia)) as Hk'.
  assert (H2 : Qc_of_Z 2 <> 0) by (apply Qc_of_Z_neq_0; lia).
  rewrite Act_DeductionTerm_pos.
  - f_equal. unfold DeductionTerm_formula, range.
    replace (k - 0)%Z with (Z.of_nat (Z.to_nat k)) by lia.
    rewrite deduction_sum_zero_rate by lia.
    rewrite Z2Nat.id by lia. rewrite Qc_of_Z_mult. field. auto.
  - exact Hk.
  - intros l Hl. replace (1 + Qc_of_Z l / Qc_of_Z k * 0) with 1 by (field; auto).
    discriminate.
Qed.

(** ** The progression table *)

Ltac qc_order :=
  repeat match goal with
  | H : Qc_ltb _ _ = true |- _ => apply Qc_ltb_lt in H
  | H : Qc_ltb _ _ = false |- _ => apply Qc_ltb_ge in H
  end.

Lemma fmin_fmax_clamp (lo hi x : Qc) :
  lo <= hi -> fmin hi (fmax lo x) = clamp lo hi x.
Proof.
  intros Hle. unfold fmin, fmax, clamp.
  destruct (Qc_ltb lo x) eqn:E1; destruct (Qc_ltb x lo) eqn:E2;
    destruct (Qc_ltb hi x) eqn:E3;
    try destruct (Qc_ltb x hi) eqn:E4; try destruct (Qc_ltb lo hi) eqn:E5;
    qc_order; try reflexivity;
    try (exfalso; qc_to_q; lra);
    try (apply Qcle_antisym; qc_to_q; lra).
Qed.

Lemma clamp_bounds (lo hi x : Qc) :
  lo <= hi -> lo <= clamp lo hi x /\ clamp lo hi x <= hi.
Proof.
  intros Hle. unfold clamp.
  destruct (Qc_ltb x lo) eqn:E1; [ | destruct (Qc_ltb hi x) eqn:E2 ];
    qc_order; split; qc_to_q; lra.
Qed.

Lemma fifty_le_150 : Qc_of_Z 50 <= Qc_of_Z 150.
Proof. apply Qc_of_Z_le. lia. Qed.

Section Progression.
Variable K : constants.
Variable xml : Result qx_tables.
Variable float_str : Qc -> string.
Variable policy : Policy.PolicyInputs.
Variable tariff : Tariff.TariffInputs.
Variable limits : Lim.Limits.
Variables pxt gross_annual_prem : Qc.

Lemma progression_row_ok (ratio ax5 dxn : Qc) (k : Z) (w w' : World)
    (row : Row.Progression) :
  progression_row K xml float_str policy tariff limits pxt gross_annual_prem
    ratio ax5 dxn k w = (Ok row, w') ->
  row_ok policy limits k row.
Proof.
  unfold progression_row. intros H.
  apply mbind_ok in H as (vAxn & w1 & _ & H).
  apply mbind_ok in H as (vaxn & w2 & _ & H).
  apply mbind_ok in H as (vaxt & w3 & _ & H).
  apply mbind_ok in H as (vnum & w4 & _ & H).
  apply mbind_ok in H as (vadj & w5 & _ & H).
  unfold mret in H. injection H as <- _.
  unfold row_ok, flex_phase_of, deduction_of, paid_up_of.
  cbn [Row.k Row.Flex_phase Row.Surrender_deduction Row.SumInsured_pu
       Row.kDRx_pp Row.kVx_pu Row.kVx_MRV].
  split; [ reflexivity | ]. split; [ reflexivity | ]. split.
  - destruct (_ || _)%bool; [ reflexivity | ].
    apply fmin_fmax_clamp, fifty_le_150.
  - destruct (k >? Policy.n policy)%Z; [ reflexivity | ].
    destruct (k <? Policy.t policy)%Z; [ | reflexivity ].
    destruct (Qc_eqb _ 0) eqn:E; [ reflexivity | ]. cbn [negb].
    apply Qc_eqb_neq in E. now rewrite (fdiv_ok _ _ E).
Qed.

(** A loop that appends one computed row per index returns one row per
    index, each of them a value the row computation returned. *)
Lemma for_eachM_rows {R : Type} (f : Z -> M R) (xs : list Z) (rows0 rows : list R)
    (w w' : World) :
  for_eachM xs (fun k rows => let! row := f k in mret (rows ++ [row])) rows0 w
  = (Ok rows, w') ->
  exists new,
    rows = rows0 ++ new
    /\ Forall2 (fun k r => exists w1 w2, f k w1 = (Ok r, w2)) xs new.
Proof.
  revert rows0 w. induction xs as [|x xs IH]; intros rows0 w H.
  - cbn in H. unfold mret in H. injection H as <- _.
    exists []. split; [ now rewrite app_nil_r | constructor ].
  - cbn [for_eachM] in H.
    apply mbind_ok in H as (rows1 & w1 & H1 & H).
    apply mbind_ok in H1 as (r & w2 & Hr & H1).
    unfold mret in H1. injection H1 as <- <-.
    apply IH in H as (new & -> & Hall).
    exists (r :: new). split; [ now rewrite <- app_assoc | ].
    constructor; [ eauto | exact Hall ].
Qed.

(** Every row [calc_progression_values] returns is well formed, and the
    rows are those of the years [0..max_k] in order. *)
Lemma progression_rows (max_k : option Z) (w w' : World)
    (rows : list Row.Progression) :
  calc_progression_values K xml float_str policy tariff limits pxt
    gross_annual_prem max_k w = (Ok rows, w') ->
  Forall2 (row_ok policy limits)
    (range 0 (default (Policy.n policy) max_k + 1)) rows.
Proof.
  unfold calc_progression_values. intros H.
  apply mbind_ok in H as (ax_t0 & w1 & _ & H).
  apply mbind_ok in H as (ax_n0 & w2 & _ & H).
  apply mbind_ok in H as (ratio & w3 & _ & H).
  apply mbind_ok in H as (dx_x5 & w4 & _ & H).
  apply mbind_ok in H as (ax5 & w5 & _ & H).
  apply mbind_ok in H as (dxn & w6 & _ & H).
  apply for_eachM_rows in H as (new & -> & Hall).
  rewrite app_nil_l.
  replace (match max_k with Some m => m | None => Policy.n policy end)
    with (default (Policy.n policy) max_k) in Hall by now destruct max_k.
  eapply Forall2_impl; [ exact Hall | ].
  intros k r (wa & wb & Hr). eapply progression_row_ok, Hr.
Qed.

(** The same, row by row. *)
Lemma progression_rows_each (max_k : option Z) (w w' : World)
    (rows : list Row.Progression) :
  calc_progression_values K xml float_str policy tariff limits pxt
    gross_annual_prem max_k w = (Ok rows, w') ->
  Row.k <$> rows = range 0 (default (Policy.n policy) max_k + 1)
  /\ Forall (fun r => row_ok policy limits (Row.k r) r) rows.
Proof.
  intros H. apply progression_rows in H.
  induction H as [|k r ks rs Hr _ IH].
  - split; [ reflexivity | constructor ].
  - destruct IH as [IH1 IH2]. pose proof Hr as (Hk & _). split.
    + cbn [fmap list_fmap] in *. now rewrite Hk, IH1.
    + constructor; [ now rewrite Hk | exact IH2 ].
Qed.

End Progression.

(** ** The premium calculation *)

Lemma mbind_lift_ok {St A B : Type} (r : Result A) (k : A -> SM St B)
    (a : A) (w : St) :
  r = Ok a -> mbind (lift r) k w = k a w.
Proof. intros ->. reflexivity. Qed.

Lemma mbind_lift_err {St A B : Type} (r : Result A) (k : A -> SM St B)
    (e : exn) (w : St) :
  r = Err e -> mbind (lift r) k w = (Err e, w).
Proof. intros ->. reflexivity. Qed.

Lemma lift_ok {St A : Type} (r : Result A) (a : A) (w w' : St) :
  lift r w = (Ok a, w') -> r = Ok a /\ w' = w.
Proof. unfold lift. intros [= -> ->]. auto. Qed.

Lemma Qc_of_Z_eq_0 (z : Z) : Qc_of_Z z = 0 <-> z = 0%Z.
Proof.
  split.
  - intros H. rewrite <- Qc_of_Z_0 in H. now apply Qc_of_Z_inj in H.
  - intros ->. apply Qc_of_Z_0.
Qed.

Section Premium.
Variable K : constants.
Variable xml : Result qx_tables.
Variable float_str : Qc -> string.

(** A term insurance factor that has been returned is returned again, with
    no change of state, in every later state; and the [Dx] value it divides
    by is in the cache and is not zero. *)
Lemma act_nGrAx_inv (Age n : Z) (Sex TableId : string) (InterestRate : Qc)
    (BirthYear RetirementAge Layer : Z) (w w' : World) (a : Qc) :
  act_nGrAx K xml float_str Age n Sex TableId InterestRate BirthYear
    RetirementAge Layer w = (Ok a, w') ->
  cache_grows w w'
  /\ (exists d,
        cached w'
          (BuildCacheKey float_str "Dx" Age Sex TableId InterestRate
             BirthYear RetirementAge Layer) = Some d
        /\ d <> 0)
  /\ forall w2, cache_grows w' w2 ->
       act_nGrAx K xml float_str Age n Sex TableId InterestRate BirthYear
         RetirementAge Layer w2 = (Ok a, w2).
Proof.
  unfold act_nGrAx. intros H.
  apply mbind_ok in H as (m1 & w1 & H1 & H).
  apply mbind_ok in H as (m2 & w2 & H2 & H).
  apply mbind_ok in H as (d & w3 & H3 & H).
  apply lift_ok in H as [Hdiv ->].
  unfold Act_Mx, Act_Dx in *.
  pose proof (memoized_grows _ _ _ _ _ _ _ _ _ _ _ _ _ H1) as G1.
  pose proof (memoized_grows _ _ _ _ _ _ _ _ _ _ _ _ _ H2) as G2.
  pose proof (memoized_grows _ _ _ _ _ _ _ _ _ _ _ _ _ H3) as G3.
  split; [ | split ].
  - eapply cache_grows_trans; [ exact G1 | ].
    eapply cache_grows_trans; [ exact G2 | exact G3 ].
  - exists d. split.
    + eapply memoized_stores, H3.
    + now apply fdiv_inv in Hdiv as [Hd _].
  - intros wL GL.
    rewrite (mbind_run _ _ wL wL m1).
    2:{ eapply memoized_later; [ exact H1 | ].
        eapply cache_grows_trans; [ exact G2 | ].
        eapply cache_grows_trans; [ exact G3 | exact GL ]. }
    rewrite (mbind_run _ _ wL wL m2).
    2:{ eapply memoized_later; [ exact H2 | ].
        eapply cache_grows_trans; [ exact G3 | exact GL ]. }
    rewrite (mbind_run _ _ wL wL d).
    2:{ eapply memoized_later; [ exact H3 | exact GL ]. }
    unfold lift. now rewrite Hdiv.
Qed.

Variable policy : Policy.PolicyInputs.
Variable tariff : Tariff.TariffInputs.

(** What [calc_premium_calculation] does once its factors are there. *)
Lemma calc_premium_calculation_outcome (w w' : World)
    (ax_t ax_n dx_x dx_xn a : Qc) :
  factors_defined K xml float_str policy tariff w ax_t ax_n dx_x dx_xn a w' ->
  let numerator :=
    premium_numerator (Tariff.gamma1 tariff) (Tariff.gamma2 tariff)
      ax_t ax_n dx_x dx_xn a in
  let denominator :=
    premium_denominator (Tariff.alpha tariff) (Tariff.beta1 tariff) ax_t
      (Policy.t policy) in
  let run := calc_premium_calculation K xml float_str policy tariff w in
  dx_x <> 0
  /\ (denominator = 0 -> is_zero_division (fst run) /\ snd run = w')
  /\ (denominator <> 0 ->
      (Policy.pay_freq policy = 0%Z \/ ax_t = 0) ->
      is_zero_division (fst run) /\ snd run = w')
  /\ (denominator <> 0 -> Policy.pay_freq policy <> 0%Z -> ax_t <> 0 ->
      exists b,
        run = (Ok b, w')
        /\ Prem.NormGrossAnnualPrem b = numerator / denominator
        /\ Prem.GrossAnnualPrem b
           = Policy.sum_insured policy * (numerator / denominator)).
Proof.
  unfold factors_defined. cbv zeta.
  intros (w1 & w2 & w3 & w4 & H1 & H2 & H3 & H4 & H5).
  destruct (act_nGrAx_inv _ _ _ _ _ _ _ _ _ _ _ H5)
    as (G5 & (d & Hd & Hd0) & Hagain).
  assert (Hdx : dx_x <> 0).
  { unfold Act_Dx in H3, H4.
    pose proof (memoized_stores _ _ _ _ _ _ _ _ _ _ _ _ _ H3) as S3.
    pose proof (memoized_grows _ _ _ _ _ _ _ _ _ _ _ _ _ H4) as G4.
    apply G4, G5 in S3. rewrite Hd in S3. now injection S3 as <-. }
  split; [ exact Hdx | ].
  unfold calc_premium_calculation.
  rewrite (mbind_run _ _ _ _ _ H1).
  rewrite (mbind_run _ _ _ _ _ H2).
  rewrite (mbind_run _ _ _ _ _ H3).
  rewrite (mbind_run _ _ _ _ _ H4).
  rewrite (mbind_run _ _ _ _ _ H5).
  rewrite (mbind_lift_ok _ _ _ _ (fdiv_ok dx_xn dx_x Hdx)).
  fold (premium_numerator (Tariff.gamma1 tariff) (Tariff.gamma2 tariff)
          ax_t ax_n dx_x dx_xn a).
  fold (premium_denominator (Tariff.alpha tariff) (Tariff.beta1 tariff) ax_t
          (Policy.t policy)).
  set (num := premium_numerator _ _ _ _ _ _ _).
  set (den := premium_denominator _ _ _ _).
  split; [ | split ].
  - intros Hz. rewrite Hz.
    rewrite (mbind_lift_err _ _ _ _ (fdiv_zero num)).
    split; [ eexists; reflexivity | reflexivity ].
  - intros Hnz Hbad.
    rewrite (mbind_lift_ok _ _ _ _ (fdiv_ok num den Hnz)).
    destruct (Z.eq_dec (Policy.pay_freq policy) 0%Z) as [Hpf|Hpf].
    + rewrite Hpf, Qc_of_Z_0.
      rewrite (mbind_lift_err _ _ _ _
                 (fdiv_zero (1 + Tariff.modal_surcharge tariff))).
      split; [ eexists; reflexivity | reflexivity ].
    + destruct Hbad as [Hbad|Hbad]; [ contradiction | ].
      assert (Hq : Qc_of_Z (Policy.pay_freq policy) <> 0)
        by (intros C; apply Qc_of_Z_eq_0 in C; contradiction).
      rewrite (mbind_lift_ok _ _ _ _
                 (fdiv_ok (1 + Tariff.modal_surcharge tariff) _ Hq)).
      rewrite (mbind_run _ _ _ _ _ (Hagain w' (cache_grows_refl w'))).
      rewrite (mbind_lift_ok _ _ _ _ (fdiv_ok dx_xn dx_x Hdx)).
      rewrite Hbad.
      rewrite (mbind_lift_err _ _ _ _ (fdiv_zero _)).
      split; [ eexists; reflexivity | reflexivity ].
  - intros Hnz Hpf Hax.
    rewrite (mbind_lift_ok _ _ _ _ (fdiv_ok num den Hnz)).
    assert (Hq : Qc_of_Z (Policy.pay_freq policy) <> 0)
      by (intros C; apply Qc_of_Z_eq_0 in C; contradiction).
    rewrite (mbind_lift_ok _ _ _ _
               (fdiv_ok (1 + Tariff.modal_surcharge tariff) _ Hq)).
    rewrite (mbind_run _ _ _ _ _ (Hagain w' (cache_grows_refl w'))).
    rewrite (mbind_lift_ok _ _ _ _ (fdiv_ok dx_xn dx_x Hdx)).
    rewrite (mbind_lift_ok _ _ _ _ (fdiv_ok _ _ Hax)).
    eexists. split; [ reflexivity | ]. split; reflexivity.
Qed.

Lemma factors_defined_of_run (w w' : World) (ax_t ax_n dx_x dx_xn a : Qc) :
  factors_run K xml float_str policy tariff w
  = (Ok (ax_t, ax_n, dx_x, dx_xn, a), w') ->
  factors_defined K xml float_str policy tariff w ax_t ax_n dx_x dx_xn a w'.
Proof.
  unfold factors_run, factors_defined. cbv zeta. intros H.
  apply mbind_ok in H as (v1 & w1 & H1 & H).
  apply mbind_ok in H as (v2 & w2 & H2 & H).
  apply mbind_ok in H as (v3 & w3 & H3 & H).
  apply mbind_ok in H as (v4 & w4 & H4 & H).
  apply mbind_ok in H as (v5 & w5 & H5 & H).
  unfold mret in H. injection H as -> -> -> -> -> ->.
  exists w1, w2, w3, w4. auto.
Qed.

End Premium.

(** *** [outfunc.py] *)

Section OutfuncPremium.
Context {St : Type}.
Variable Act_axn_k : Z -> Z -> string -> string -> Qc -> Z -> SM St Qc.
Variable Act_Dx : Z -> string -> string -> Qc -> SM St Qc.
Variable act_nGrAx : Z -> Z -> string -> string -> Qc -> SM St Qc.
Variable p : Outfunc.TariffParams.

Lemma NormGrossAnnualPrem_outcome (sa : Qc) (age : Z) (sex : string)
    (n t PayFreq : Z) (tariff : string) (w w' : St)
    (axn_t axn_n dx_x dx_xn a : Qc) :
  basfunct_factors_defined Act_axn_k Act_Dx act_nGrAx p age sex n t w
    axn_t axn_n dx_x dx_xn a w' ->
  let numerator :=
    premium_numerator (Outfunc.gamma1 p) (Outfunc.gamma2 p)
      axn_t axn_n dx_x dx_xn a in
  let denominator :=
    premium_denominator (Outfunc.alpha p) (Outfunc.beta1 p) axn_t t in
  let rate :=
    Outfunc.NormGrossAnnualPrem St Act_axn_k Act_Dx act_nGrAx (Ok p)
      sa age sex n t PayFreq tariff w in
  let annual :=
    Outfunc.GrossAnnualPrem St Act_axn_k Act_Dx act_nGrAx (Ok p)
      sa age sex n t PayFreq tariff w in
  (denominator = 0 ->
   is_zero_division (fst rate) /\ is_zero_division (fst annual))
  /\ (denominator <> 0 ->
      rate = (Ok (numerator / denominator), w')
      /\ annual = (Ok (sa * (numerator / denominator)), w')).
Proof.
  unfold basfunct_factors_defined. cbv zeta.
  intros (w1 & w2 & w3 & w4 & H1 & H2 & H3 & H4 & Hdx & H5).
  set (num := premium_numerator _ _ _ _ _ _ _).
  set (den := premium_denominator _ _ _ _).
  assert (Hrate :
    Outfunc.NormGrossAnnualPrem St Act_axn_k Act_Dx act_nGrAx (Ok p)
      sa age sex n t PayFreq tariff w
    = if Qc_eqb den 0
      then (Err (ZeroDivisionError "Denominator in K5 (Bxt) is zero."), w')
      else (fdiv num den, w')).
  { unfold Outfunc.NormGrossAnnualPrem.
    rewrite (mbind_lift_ok _ _ p w eq_refl).
    rewrite (mbind_run _ _ _ _ _ H1).
    rewrite (mbind_run _ _ _ _ _ H2).
    rewrite (mbind_run _ _ _ _ _ H3).
    rewrite (mbind_run _ _ _ _ _ H4).
    rewrite (mbind_lift_ok _ _ _ _ (fdiv_ok dx_xn dx_x Hdx)).
    rewrite (mbind_run _ _ _ _ _ H5).
    unfold num, den, premium_numerator, premium_denominator.
    now destruct (Qc_eqb _ 0). }
  unfold Outfunc.GrossAnnualPrem, mbind. rewrite Hrate.
  split.
  - intros Hz. apply Qc_eqb_eq in Hz. rewrite Hz.
    split; eexists; reflexivity.
  - intros Hnz. pose proof Hnz as Hb. apply Qc_eqb_neq in Hb. rewrite Hb.
    rewrite (fdiv_ok _ _ Hnz). split; reflexivity.
Qed.

End OutfuncPremium.

(** * The claims *)

(** C9.  For a loaded table store, [Act_qx] fails with the
    "table not implemented" [ValueError] exactly when the trimmed,
    upper-cased table id is neither [DAV1994_T] nor [DAV2008_T].  For a
    table id on that list it fails exactly when the column of the table and
    the normalised sex is absent from the store (a [KeyError]) or the age is
    negative or at least the size of the column (an [IndexError]); otherwise
    it returns the rate stored at that age. *)
Theorem C9_Act_qx_failures (T : qx_tables) (Age : Z) (Sex TableId : string)
    (BirthYear RetirementAge Layer : Z) :
  let r := Act_qx (Ok T) Age Sex TableId BirthYear RetirementAge Layer in
  let table_id := upper (strip TableId) in
  let col := T !! column TableId Sex in
  ((exists msg, r = Err (ValueError msg)) <-> ~ supported table_id)
  /\ (supported table_id ->
      ((exists e, r = Err e) <->
       (col = None
        \/ exists vec, col = Some vec
             /\ ((Age < 0)%Z \/ (Z.of_nat (length vec) <= Age)%Z)))
      /\ (col = None -> exists msg, r = Err (KeyError msg))
      /\ (forall vec, col = Some vec ->
            ((Age < 0)%Z \/ (Z.of_nat (length vec) <= Age)%Z) ->
            exists msg, r = Err (IndexError msg))
      /\ (forall vec, col = Some vec ->
            (0 <= Age < Z.of_nat (length vec))%Z ->
            exists q, vec !! Z.to_nat Age = Some q /\ r = Ok q)).
Proof.
  intros r table_id col. subst table_id col.
  pose proof (Act_qx_cases T Age Sex TableId BirthYear RetirementAge Layer)
    as H. fold r in H. cbv zeta in H.
  destruct H as [(Hns & Hr) | [(Hs & Hc & msg & Hr)
    | [(Hs & vec & Hc & Ha & msg & Hr) | (Hs & vec & q & Hc & Ha & Hq & Hr)]]].
  - split.
    + split; [ intros _; exact Hns | intros _; eauto ].
    + intros Hs. contradiction.
  - split.
    + split; [ intros (m & Hm); congruence | intros Hn; contradiction ].
    + intros _. repeat split.
      * intros _. now left.
      * intros _. eauto.
      * intros _. eauto.
      * intros vec Hv. congruence.
      * intros vec Hv. congruence.
  - split.
    + split; [ intros (m & Hm); congruence | intros Hn; contradiction ].
    + intros _. repeat split.
      * intros _. right. eauto.
      * intros _. eauto.
      * intros Hn. congruence.
      * intros vec' Hv _. eauto.
      * intros vec' Hv Hr'. assert (vec' = vec) by congruence. subst. lia.
  - split.
    + split; [ intros (m & Hm); congruence | intros Hn; contradiction ].
    + intros _. repeat split.
      * intros (e & He). congruence.
      * intros [Hn | (vec' & Hv & Hr')]; [ congruence | ].
        assert (vec' = vec) by congruence. subst. lia.
      * intros Hn. congruence.
      * intros vec' Hv Hr'. assert (vec' = vec) by congruence. subst. lia.
      * intros vec' Hv _. assert (vec' = vec) by congruence. subst. eauto.
Qed.

(** C4.  Whenever the table gives a rate in [0, 1] for every age below the
    limit, [Vec_lx] returns a vector of [limit + 1] entries that starts at
    1,000,000 and never increases from one age to the next. *)
Theorem C4_lx_non_increasing (K : constants) (xml : Result qx_tables)
    (EndAge : Z) (Sex TableId : string) (BirthYear RetirementAge Layer : Z) :
  (0 <= limit_of K EndAge)%Z ->
  (forall a, (0 <= a < limit_of K EndAge)%Z ->
     exists q, Act_qx xml a Sex TableId BirthYear RetirementAge Layer = Ok q
               /\ 0 <= q /\ q <= 1) ->
  exists vec,
    Vec_lx K xml EndAge Sex TableId BirthYear RetirementAge Layer = Ok vec
    /\ length vec = Z.to_nat (limit_of K EndAge + 1)
    /\ vec !! 0%nat = Some (Qc_of_Z 1000000)
    /\ forall age, (1 <= age <= limit_of K EndAge)%Z ->
         exists u v,
           vec !! Z.to_nat (age - 1) = Some u
           /\ vec !! Z.to_nat age = Some v
           /\ v <= u.
Proof.
  intros Hlim Hqx.
  destruct (Vec_lx_total K xml Sex TableId BirthYear RetirementAge Layer
              EndAge Hlim) as (vec & Hrun & Hrec).
  { intros a Ha. destruct (Hqx a Ha) as (q & Hq & _). eauto. }
  exists vec. split; [ exact Hrun | ].
  pose proof Hrec as (Hlen & H0 & _).
  split; [ exact Hlen | ]. split; [ exact H0 | ].
  intros age Hage. eapply lx_non_increasing; [ exact Hrec | | exact Hage ].
  intros a q Ha Hq. destruct (Hqx a Ha) as (q' & Hq' & Hb).
  rewrite Hq in Hq'. injection Hq' as <-. exact Hb.
Qed.

Lemma C4_lx_non_increasing_witness :
  exists vec,
    Vec_lx demo_constants (Ok demo_tables) (-1) "M" "DAV1994_T" 0 0 1 = Ok vec
    /\ length vec = 9%nat
    /\ vec !! 0%nat = Some (Qc_of_Z 1000000)
    /\ forall age, (1 <= age <= 8)%Z ->
         exists u v,
           vec !! Z.to_nat (age - 1) = Some u
           /\ vec !! Z.to_nat age = Some v
           /\ v <= u.
Proof.
  apply (C4_lx_non_increasing demo_constants (Ok demo_tables) (-1)
           "M" "DAV1994_T" 0 0 1).
  - vm_compute. discriminate.
  - intros a Ha. change (limit_of demo_constants (-1)) with 8%Z in Ha.
    assert (Hc : (a = 0 \/ a = 1 \/ a = 2 \/ a = 3 \/ a = 4 \/ a = 5
                  \/ a = 6 \/ a = 7)%Z) by lia.
    destruct Hc as [-> | [-> | [-> | [-> | [-> | [-> | [-> | ->]]]]]]];
      (eexists; split; [ vm_compute; reflexivity | ];
       split; vm_compute; discriminate).
Defined.

(** C5.  For each of the five memoized accessors and every parameter tuple:
    when a call returns a value, the same call made next returns the
    identical value and leaves the state as it was, so the cache is
    unchanged and no builder has been called again; the value is the one
    the cache holds under the key of the call. *)
Theorem C5_cache_idempotence (K : constants) (xml : Result qx_tables)
    (float_str : Qc -> string) (Age : Z) (Sex TableId : string)
    (InterestRate : Qc) (BirthYear RetirementAge Layer : Z)
    (acc : M Qc) (Kind : string) (w w1 : World) (v : Qc) :
  (acc, Kind) ∈
    [ (Act_Dx K xml float_str Age Sex TableId InterestRate BirthYear
         RetirementAge Layer, "Dx"%string);
      (Act_Cx K xml float_str Age Sex TableId InterestRate BirthYear
         RetirementAge Layer, "Cx"%string);
      (Act_Nx K xml float_str Age Sex TableId InterestRate BirthYear
         RetirementAge Layer, "Nx"%string);
      (Act_Mx K xml float_str Age Sex TableId InterestRate BirthYear
         RetirementAge Layer, "Mx"%string);
      (Act_Rx K xml float_str Age Sex TableId InterestRate BirthYear
         RetirementAge Layer, "Rx"%string) ] ->
  acc w = (Ok v, w1) ->
  acc w1 = (Ok v, w1)
  /\ builder_calls (snd (acc w1)) = builder_calls w1
  /\ cached w1
       (BuildCacheKey float_str Kind Age Sex TableId InterestRate BirthYear
          RetirementAge Layer) = Some v.
Proof.
  intros Hin Hrun.
  assert (H : acc w1 = (Ok v, w1)
              /\ cached w1
                   (BuildCacheKey float_str Kind Age Sex TableId InterestRate
                      BirthYear RetirementAge Layer) = Some v).
  { repeat (apply elem_of_cons in Hin as [Hin|Hin];
            [ injection Hin as -> ->; split;
              [ eapply memoized_again | eapply memoized_stores ]; exact Hrun
            | ]).
    now apply elem_of_nil in Hin. }
  destruct H as [H1 H2]. rewrite H1. auto.
Qed.

Lemma C5_cache_idempotence_witness :
  let call :=
    Act_Nx demo_constants (Ok demo_tables) demo_float_str 3 "M" "DAV1994_T"
      (Q2Qc (1 # 100)) 0 0 1 in
  call (snd (call fresh)) = call fresh
  /\ builder_calls (snd (call fresh)) = 1%nat.
Proof.
  intros call. split; [ | vm_compute; reflexivity ].
  destruct (call fresh) as [[v|e] w1] eqn:E.
  - simpl.
    apply (C5_cache_idempotence demo_constants (Ok demo_tables) demo_float_str
             3 "M" "DAV1994_T" (Q2Qc (1 # 100)) 0 0 1 call "Nx" fresh w1 v).
    + subst call. do 2 apply list_elem_of_further. apply list_elem_of_here.
    + exact E.
  - vm_compute in E. discriminate.
Defined.

(** C10, as amended.  For [Age = -1] the extraction [vec[Age]] adds no
    failure of its own and selects the last entry of the full vector.
    - Whenever [Vec_lx(-1, ...)] returns a vector, that vector is the one
      [Vec_lx(MAX_AGE, ...)] returns, it has [MAX_AGE + 1] entries, and
      [Act_lx(-1, ...)] returns its last entry, which is its entry at
      [MAX_AGE] and the value [Act_lx(MAX_AGE, ...)] returns.  When the
      builder raises, [Act_lx(-1, ...)] raises the same exception.
    - With no entry yet under the key, whenever [Vec_Dx(-1, ...)] returns a
      vector, that vector is the one [Vec_Dx(MAX_AGE, ...)] returns, it has
      [MAX_AGE + 1] entries, and [Act_Dx(-1, ...)] calls the builder once,
      returns the last entry, which is the entry at [MAX_AGE] and the value
      a fresh process gets from [Act_Dx(MAX_AGE, ...)], and stores it under
      the key whose age field is [-1].  When the builder raises,
      [Act_Dx(-1, ...)] raises the same exception and stores nothing.
    - The accessors can fail all the same: at the interest rate -1 the
      builder of [Dx] divides by zero, and so does [Act_Dx(-1, ...)]. *)
Theorem C10_age_minus_one (K : constants) (xml : Result qx_tables)
    (float_str : Qc -> string) (Sex TableId : string) (InterestRate : Qc)
    (BirthYear RetirementAge Layer : Z) (w : World) :
  let key :=
    BuildCacheKey float_str "Dx" (-1) Sex TableId InterestRate BirthYear
      RetirementAge Layer in
  let lx_builder :=
    Vec_lx K xml (-1) Sex TableId BirthYear RetirementAge Layer in
  let dx_builder :=
    Vec_Dx K xml (-1) Sex TableId InterestRate BirthYear RetirementAge Layer in
  let lx_call := Act_lx K xml (-1) Sex TableId BirthYear RetirementAge Layer in
  let dx_call :=
    Act_Dx K xml float_str (-1) Sex TableId InterestRate BirthYear
      RetirementAge Layer w in
  (forall vec, lx_builder = Ok vec ->
     Vec_lx K xml (MAX_AGE K) Sex TableId BirthYear RetirementAge Layer
     = Ok vec
     /\ length vec = Z.to_nat (MAX_AGE K + 1)
     /\ exists v,
          last vec = Some v
          /\ vec !! Z.to_nat (MAX_AGE K) = Some v
          /\ lx_call = Ok v
          /\ Act_lx K xml (MAX_AGE K) Sex TableId BirthYear RetirementAge
               Layer = Ok v)
  /\ (forall e, lx_builder = Err e -> lx_call = Err e)
  /\ (forall dx, dx_builder = Ok dx -> cached w key = None ->
        Vec_Dx K xml (MAX_AGE K) Sex TableId InterestRate BirthYear
          RetirementAge Layer = Ok dx
        /\ length dx = Z.to_nat (MAX_AGE K + 1)
        /\ exists v,
             last dx = Some v
             /\ dx !! Z.to_nat (MAX_AGE K) = Some v
             /\ dx_call
                = (Ok v, {| cache := Some (<[key := v]> (default ∅ (cache w)));
                            builder_calls := S (builder_calls w) |})
             /\ fst (Act_Dx K xml float_str (MAX_AGE K) Sex TableId
                       InterestRate BirthYear RetirementAge Layer fresh)
                = Ok v
             /\ key = ("Dx_-1_" +:+ Sex +:+ "_" +:+ TableId +:+ "_"
                       +:+ float_str InterestRate +:+ "_"
                       +:+ str_int BirthYear +:+ "_"
                       +:+ str_int RetirementAge +:+ "_"
                       +:+ str_int Layer)%string)
  /\ (forall e, dx_builder = Err e -> cached w key = None ->
        dx_call = (Err e, {| cache := Some (default ∅ (cache w));
                             builder_calls := S (builder_calls w) |}))
  /\ (InterestRate = - (1) -> (0 <= MAX_AGE K)%Z -> cached w key = None ->
        fst dx_call = Err (ZeroDivisionError "float division by zero")).
Proof.
  intros key lx_builder dx_builder lx_call dx_call.
  subst lx_builder dx_builder lx_call dx_call.
  split; [ | split; [ | split; [ | split ] ] ].
  - intros vec Hvec.
    pose proof (Vec_lx_length _ _ _ _ _ _ _ _ _ Hvec) as [Hmax Hlen].
    change (limit_of K (-1)) with (MAX_AGE K) in *.
    split; [ now rewrite <- Vec_lx_minus_1 | ]. split; [ exact Hlen | ].
    destruct (getitem_last_entry vec (MAX_AGE K) Hmax Hlen)
      as (v & Hl & Hv & H1 & H2).
    exists v. split; [ exact Hl | ]. split; [ exact Hv | ].
    unfold Act_lx. rewrite <- Vec_lx_minus_1, Hvec. simpl. auto.
  - intros e He. unfold Act_lx. now rewrite He.
  - intros dx Hdx Hmiss.
    pose proof (Vec_Dx_sound _ _ _ _ _ _ _ _ _ _ Hdx)
      as (Hmax & _ & lx & _ & Hlen & _).
    change (limit_of K (-1)) with (MAX_AGE K) in *.
    split; [ now rewrite <- Vec_Dx_minus_1 | ]. split; [ exact Hlen | ].
    destruct (getitem_last_entry dx (MAX_AGE K) Hmax Hlen)
      as (v & Hl & Hv & H1 & H2).
    exists v. split; [ exact Hl | ]. split; [ exact Hv | ].
    split; [ | split ].
    + unfold Act_Dx. now apply (memoized_miss _ _ _ _ _ _ _ _ _ _ w dx v).
    + unfold Act_Dx.
      rewrite (memoized_miss _ _ _ _ _ _ _ _ _ _ fresh dx v);
        [ reflexivity | reflexivity | | exact H2 ].
      now rewrite <- Vec_Dx_minus_1.
    + reflexivity.
  - intros e He Hmiss. unfold Act_Dx.
    apply memoized_miss_fail; [ exact Hmiss | ]. now rewrite He.
  - intros -> Hmax Hmiss. unfold Act_Dx.
    rewrite (memoized_miss_fail _ _ _ _ _ _ _ _ _ _ w
               (ZeroDivisionError "float division by zero") Hmiss);
      [ reflexivity | ].
    now rewrite Vec_Dx_rate_minus_1.
Qed.

Lemma C10_age_minus_one_witness :
  exists lx dx v u,
    Vec_lx demo_constants (Ok demo_tables) (-1) "M" "DAV1994_T" 0 0 1 = Ok lx
    /\ last lx = Some v
    /\ Act_lx demo_constants (Ok demo_tables) (-1) "M" "DAV1994_T" 0 0 1
       = Ok v
    /\ Vec_Dx demo_constants (Ok demo_tables) (-1) "M" "DAV1994_T"
         (Q2Qc (1 # 100)) 0 0 1 = Ok dx
    /\ last dx = Some u
    /\ fst (Act_Dx demo_constants (Ok demo_tables) demo_float_str (-1) "M"
              "DAV1994_T" (Q2Qc (1 # 100)) 0 0 1 fresh) = Ok u.
Proof.
  destruct (Vec_lx demo_constants (Ok demo_tables) (-1) "M" "DAV1994_T" 0 0 1)
    as [lx|e] eqn:E; [ | vm_compute in E; discriminate ].
  destruct (Vec_Dx demo_constants (Ok demo_tables) (-1) "M" "DAV1994_T"
              (Q2Qc (1 # 100)) 0 0 1)
    as [dx|e] eqn:F; [ | vm_compute in F; discriminate ].
  destruct (C10_age_minus_one demo_constants (Ok demo_tables) demo_float_str
              "M" "DAV1994_T" (Q2Qc (1 # 100)) 0 0 1 fresh)
    as (HA & _ & HB & _).
  destruct (HA lx E) as (_ & _ & v & Hl & _ & Hv & _).
  destruct (HB dx F eq_refl) as (_ & _ & u & Hu & _ & Hr & _).
  exists lx, dx, v, u.
  split; [ reflexivity | ]. split; [ exact Hl | ]. split; [ exact Hv | ].
  split; [ reflexivity | ]. split; [ exact Hu | ].
  now rewrite Hr.
Defined.

(** C10 as stated fails: with a supported table and sex, for which
    [Act_lx(-1, ...)] returns, [Act_Dx(-1, ...)] at the interest rate -1
    raises a division by zero. *)
Lemma C10_counterexample :
  supported (upper (strip "DAV1994_T"))
  /\ (exists v,
        Act_lx demo_constants (Ok demo_tables) (-1) "M" "DAV1994_T" 0 0 1
        = Ok v)
  /\ fst (Act_Dx demo_constants (Ok demo_tables) demo_float_str (-1) "M"
            "DAV1994_T" (- (1)) 0 0 1 fresh)
     = Err (ZeroDivisionError "float division by zero").
Proof.
  split; [ left; reflexivity | ]. split.
  - eexists. vm_compute. reflexivity.
  - vm_compute. reflexivity.
Qed.

(** C2, as amended.  Whenever [Vec_Dx(-1, ...)] returns a vector [dx],
    [Vec_Nx] returns a vector [nx] of [MAX_AGE + 1] entries with
    [nx[MAX_AGE] = dx[MAX_AGE]] and, for every [i < MAX_AGE],
    [nx[i] = _excel_round(nx[i+1] + dx[i], ROUND_DX)]: the rounding after
    each addition uses the decimal places of [Dx], not [ROUND_NX]. *)
Theorem C2_Nx_backward_recurrence (K : constants) (xml : Result qx_tables)
    (Sex TableId : string) (InterestRate : Qc)
    (BirthYear RetirementAge Layer : Z) (dx : list Qc) :
  Vec_Dx K xml (-1) Sex TableId InterestRate BirthYear RetirementAge Layer
  = Ok dx ->
  exists nx,
    Vec_Nx K xml Sex TableId InterestRate BirthYear RetirementAge Layer = Ok nx
    /\ length nx = Z.to_nat (MAX_AGE K + 1)
    /\ nx !! Z.to_nat (MAX_AGE K) = dx !! Z.to_nat (MAX_AGE K)
    /\ forall i : Z, (0 <= i < MAX_AGE K)%Z ->
         exists a b,
           nx !! Z.to_nat (i + 1) = Some a
           /\ dx !! Z.to_nat i = Some b
           /\ nx !! Z.to_nat i = Some (_excel_round (a + b) (ROUND_DX K)).
Proof.
  intros Hdx.
  destruct (Vec_Nx_total K xml Sex TableId InterestRate BirthYear
              RetirementAge Layer dx Hdx) as (nx & Hnx & Hsum).
  exists nx. split; [ exact Hnx | exact Hsum ].
Qed.

Lemma C2_Nx_backward_recurrence_witness :
  exists dx,
    Vec_Dx demo_constants (Ok demo_tables) (-1) "M" "DAV1994_T"
      (Q2Qc (1 # 100)) 0 0 1 = Ok dx
    /\ exists nx,
         Vec_Nx demo_constants (Ok demo_tables) "M" "DAV1994_T"
           (Q2Qc (1 # 100)) 0 0 1 = Ok nx
         /\ length nx = 9%nat
         /\ nx !! 8%nat = dx !! 8%nat
         /\ forall i : Z, (0 <= i < 8)%Z ->
              exists a b,
                nx !! Z.to_nat (i + 1) = Some a
                /\ dx !! Z.to_nat i = Some b
                /\ nx !! Z.to_nat i = Some (_excel_round (a + b) 2).
Proof.
  eexists. split; [ vm_compute; reflexivity | ].
  apply (C2_Nx_backward_recurrence demo_constants (Ok demo_tables) "M"
           "DAV1994_T" (Q2Qc (1 # 100)) 0 0 1).
  vm_compute. reflexivity.
Defined.

(** C2 as stated fails: in the worked configuration, where [ROUND_NX] is 0
    and [ROUND_DX] is 2, the entry [nx[6]] is not the sum [nx[7] + dx[6]]
    rounded to [ROUND_NX] decimal places. *)
Lemma C2_counterexample :
  exists nx dx a b v,
    Vec_Nx demo_constants (Ok demo_tables) "M" "DAV1994_T" (Q2Qc (1 # 100))
      0 0 1 = Ok nx
    /\ Vec_Dx demo_constants (Ok demo_tables) (-1) "M" "DAV1994_T"
         (Q2Qc (1 # 100)) 0 0 1 = Ok dx
    /\ nx !! 7%nat = Some a
    /\ dx !! 6%nat = Some b
    /\ nx !! 6%nat = Some v
    /\ v <> _excel_round (a + b) (ROUND_NX demo_constants).
Proof.
  do 5 eexists.
  split; [ vm_compute; reflexivity | ].
  split; [ vm_compute; reflexivity | ].
  split; [ vm_compute; reflexivity | ].
  split; [ vm_compute; reflexivity | ].
  split; [ vm_compute; reflexivity | ].
  intros C. apply (f_equal this) in C. vm_compute in C. discriminate.
Qed.

(** C3, the failing input.  In the worked configuration [Act_tx(0, ...)]
    returns 0, although the survivors fall from 1,000,000 at age 0 to
    900,000 at age 1, whose rounded difference is 100,000. *)
Theorem C3_Act_tx_failing_input :
  Act_tx demo_constants (Ok demo_tables) 0 "M" "DAV1994_T" 0 0 1 = Ok 0
  /\ exists lx0 lx1,
       Act_lx demo_constants (Ok demo_tables) 0 "M" "DAV1994_T" 0 0 1 = Ok lx0
       /\ Act_lx demo_constants (Ok demo_tables) 1 "M" "DAV1994_T" 0 0 1
          = Ok lx1
       /\ _excel_round (lx0 - lx1) (ROUND_TX demo_constants)
          = Qc_of_Z 100000
       /\ Qc_of_Z 100000 <> 0.
Proof.
  split.
  - destruct (Act_tx demo_constants (Ok demo_tables) 0 "M" "DAV1994_T" 0 0 1)
      as [r|e] eqn:E.
    + f_equal. eapply Act_tx_zero, E.
    + vm_compute in E. discriminate.
  - do 2 eexists.
    split; [ vm_compute; reflexivity | ].
    split; [ vm_compute; reflexivity | ].
    split.
    + apply Qc_is_canon. vm_compute. reflexivity.
    + intros C. apply (f_equal this) in C. vm_compute in C. discriminate.
Qed.

(** C8.  [Act_DeductionTerm(k, i)] returns 0 for every [k <= 0] and every
    rate.  For [k > 0], wherever no summand divides by zero, it returns
    [(1+i)/k] times the sum over [l = 0..k-1] of [(l/k)/(1+(l/k)*i)]; for
    [i = 0] that is [(k-1)/(2k)]. *)
Theorem C8_DeductionTerm (k : Z) (i : Qc) :
  ((k <= 0)%Z -> Act_DeductionTerm k i = Ok 0)
  /\ ((0 < k)%Z ->
      (forall l, (0 <= l < k)%Z -> 1 + Qc_of_Z l / Qc_of_Z k * i <> 0) ->
      Act_DeductionTerm k i = Ok (DeductionTerm_formula k i))
  /\ ((0 < k)%Z -> i = 0 ->
      Act_DeductionTerm k i = Ok (Qc_of_Z (k - 1) / (Qc_of_Z 2 * Qc_of_Z k))).
Proof.
  split; [ apply Act_DeductionTerm_nonpos | ].
  split; [ apply Act_DeductionTerm_pos | ].
  intros Hk ->. now apply Act_DeductionTerm_zero_rate.
Qed.

Lemma C8_DeductionTerm_witness :
  Act_DeductionTerm 0 (Q2Qc (7 # 400)) = Ok 0
  /\ Act_DeductionTerm 2 (Q2Qc (7 # 400))
     = Ok (DeductionTerm_formula 2 (Q2Qc (7 # 400)))
  /\ Act_DeductionTerm 12 0 = Ok (Qc_of_Z 11 / (Qc_of_Z 2 * Qc_of_Z 12)).
Proof.
  split; [ | split ].
  - apply (proj1 (C8_DeductionTerm 0 (Q2Qc (7 # 400)))). lia.
  - apply (proj1 (proj2 (C8_DeductionTerm 2 (Q2Qc (7 # 400))))); [ lia | ].
    intros l Hl. assert (Hc : (l = 0 \/ l = 1)%Z) by lia.
    destruct Hc as [-> | ->];
      (intros C; apply (f_equal this) in C; vm_compute in C; discriminate).
  - apply (proj2 (proj2 (C8_DeductionTerm 12 0))); [ lia | reflexivity ].
Defined.

(** C6.  When [calc_progression_values] returns, its rows are those of the
    years [0..max_k] in order, and in every row the surrender deduction lies
    between 0 and 150, is exactly 0 when [k > n] or the flex-phase flag is
    1, and otherwise is [0.01 * (sumInsured - kDRx_pp)] clamped to
    [50, 150]. *)
Theorem C6_surrender_deduction (K : constants) (xml : Result qx_tables)
    (float_str : Qc -> string) (policy : Policy.PolicyInputs)
    (tariff : Tariff.TariffInputs) (limits : Lim.Limits)
    (pxt gross_annual_prem : Qc) (max_k : option Z) (w w' : World)
    (rows : list Row.Progression) :
  calc_progression_values K xml float_str policy tariff limits pxt
    gross_annual_prem max_k w = (Ok rows, w') ->
  Row.k <$> rows = range 0 (default (Policy.n policy) max_k + 1)
  /\ Forall (fun r =>
       let d := Row.Surrender_deduction r in
       let off := ((Row.k r > Policy.n policy)%Z \/ Row.Flex_phase r = 1%Z) in
       0 <= d /\ d <= Qc_of_Z 150
       /\ (off -> d = 0)
       /\ (~ off ->
           d = clamp (Qc_of_Z 50) (Qc_of_Z 150)
                 (Q2Qc (1 # 100)
                  * (Policy.sum_insured policy - Row.kDRx_pp r)))
       /\ Row.Flex_phase r = flex_phase_of policy limits (Row.k r)) rows.
Proof.
  intros H. apply progression_rows_each in H as [Hks H].
  split; [ exact Hks | ].
  eapply Forall_impl; [ exact H | ].
  intros r (_ & Hf & Hd & _). cbv zeta.
  rewrite Hd, Hf. unfold deduction_of. rewrite Hf.
  set (k := Row.k r).
  destruct ((k >? Policy.n policy)
            || (flex_phase_of policy limits k =? 1))%Z eqn:E.
  - split; [ apply Qcle_refl | ].
    split; [ rewrite <- Qc_of_Z_0; apply Qc_of_Z_le; lia | ].
    split; [ reflexivity | ].
    split; [ | reflexivity ].
    intros C. exfalso. apply C. lia.
  - destruct (clamp_bounds (Qc_of_Z 50) (Qc_of_Z 150)
                (Q2Qc (1 # 100)
                 * (Policy.sum_insured policy - Row.kDRx_pp r))
                fifty_le_150) as [Hlo Hhi].
    split.
    { eapply Qcle_trans; [ | exact Hlo ].
      rewrite <- Qc_of_Z_0. apply Qc_of_Z_le. lia. }
    split; [ exact Hhi | ].
    split; [ | split; reflexivity ].
    intros C. exfalso. lia.
Qed.

Lemma C6_surrender_deduction_witness :
  match
    calc_progression_values demo_constants (Ok demo_tables) demo_float_str
      demo_policy demo_tariff demo_limits (Q2Qc (1 # 25)) (Qc_of_Z 544)
      None fresh
  with
  | (Ok rows, _) =>
      Row.k <$> rows = [0; 1; 2; 3]%Z
      /\ Forall (fun r =>
           0 <= Row.Surrender_deduction r
           /\ Row.Surrender_deduction r <= Qc_of_Z 150) rows
  | (Err _, _) => False
  end.
Proof.
  destruct (calc_progression_values demo_constants (Ok demo_tables)
              demo_float_str demo_policy demo_tariff demo_limits
              (Q2Qc (1 # 25)) (Qc_of_Z 544) None fresh)
    as [[rows|e] w'] eqn:E.
  - destruct (C6_surrender_deduction _ _ _ _ _ _ _ _ _ _ _ _ E) as [Hk Hall].
    split; [ exact Hk | ].
    eapply Forall_impl; [ exact Hall | ].
    intros r (H0 & H1 & _). auto.
  - vm_compute in E. discriminate.
Defined.




(** C1, as amended.  Let the actuarial factors be defined, and write
    [numerator] for
    [nGrAx(x,n) + Dx(x+n)/Dx(x) + gamma1*axn(x,t) + gamma2*(axn(x,n) - axn(x,t))]
    and [denominator] for [(1-beta1)*axn(x,t) - alpha*t].
    - [calc_premium_calculation] returns exactly when [denominator], the
      payment frequency and [axn(x,t)] are all nonzero; the rate it returns
      is [numerator / denominator] and the gross annual premium is the sum
      insured times that rate.  It raises a division by zero when
      [denominator] is zero, and also when [denominator] is nonzero but the
      payment frequency or [axn(x,t)] is zero.
    - [NormGrossAnnualPrem] and [GrossAnnualPrem] of [outfunc.py] return
      that rate and the sum insured times that rate, and raise a division
      by zero exactly when [denominator] is zero. *)
Theorem C1_premium_calculation :
  (forall (K : constants) (xml : Result qx_tables) (float_str : Qc -> string)
          (policy : Policy.PolicyInputs) (tariff : Tariff.TariffInputs)
          (w w' : World) (ax_t ax_n dx_x dx_xn a : Qc),
     factors_defined K xml float_str policy tariff w ax_t ax_n dx_x dx_xn a w' ->
     let numerator :=
       premium_numerator (Tariff.gamma1 tariff) (Tariff.gamma2 tariff)
         ax_t ax_n dx_x dx_xn a in
     let denominator :=
       premium_denominator (Tariff.alpha tariff) (Tariff.beta1 tariff) ax_t
         (Policy.t policy) in
     let run := calc_premium_calculation K xml float_str policy tariff w in
     dx_x <> 0
     /\ (denominator = 0 -> is_zero_division (fst run) /\ snd run = w')
     /\ (denominator <> 0 ->
         (Policy.pay_freq policy = 0%Z \/ ax_t = 0) ->
         is_zero_division (fst run) /\ snd run = w')
     /\ (denominator <> 0 -> Policy.pay_freq policy <> 0%Z -> ax_t <> 0 ->
         exists b,
           run = (Ok b, w')
           /\ Prem.NormGrossAnnualPrem b = numerator / denominator
           /\ Prem.GrossAnnualPrem b
              = Policy.sum_insured policy * (numerator / denominator)))
  /\ (forall (St : Type)
             (Act_axn_k : Z -> Z -> string -> string -> Qc -> Z -> SM St Qc)
             (Act_Dx : Z -> string -> string -> Qc -> SM St Qc)
             (act_nGrAx : Z -> Z -> string -> string -> Qc -> SM St Qc)
             (p : Outfunc.TariffParams) (sa : Qc) (age : Z) (sex : string)
             (n t PayFreq : Z) (tariff : string) (w w' : St)
             (axn_t axn_n dx_x dx_xn a : Qc),
        basfunct_factors_defined Act_axn_k Act_Dx act_nGrAx p age sex n t w
          axn_t axn_n dx_x dx_xn a w' ->
        let numerator :=
          premium_numerator (Outfunc.gamma1 p) (Outfunc.gamma2 p)
            axn_t axn_n dx_x dx_xn a in
        let denominator :=
          premium_denominator (Outfunc.alpha p) (Outfunc.beta1 p) axn_t t in
        let rate :=
          Outfunc.NormGrossAnnualPrem St Act_axn_k Act_Dx act_nGrAx (Ok p)
            sa age sex n t PayFreq tariff w in
        let annual :=
          Outfunc.GrossAnnualPrem St Act_axn_k Act_Dx act_nGrAx (Ok p)
            sa age sex n t PayFreq tariff w in
        (denominator = 0 ->
         is_zero_division (fst rate) /\ is_zero_division (fst annual))
        /\ (denominator <> 0 ->
            rate = (Ok (numerator / denominator), w')
            /\ annual = (Ok (sa * (numerator / denominator)), w'))).
Proof.
  split.
  - intros. now apply calc_premium_calculation_outcome.
  - intros. now apply NormGrossAnnualPrem_outcome.
Qed.

Lemma C1_premium_calculation_witness :
  exists ax_t ax_n dx_x dx_xn a w' b,
    factors_defined demo_constants (Ok demo_tables) demo_float_str
      demo_policy demo_tariff fresh ax_t ax_n dx_x dx_xn a w'
    /\ calc_premium_calculation demo_constants (Ok demo_tables)
         demo_float_str demo_policy demo_tariff fresh = (Ok b, w')
    /\ Prem.NormGrossAnnualPrem b
       = premium_numerator (Tariff.gamma1 demo_tariff)
           (Tariff.gamma2 demo_tariff) ax_t ax_n dx_x dx_xn a
         / premium_denominator (Tariff.alpha demo_tariff)
             (Tariff.beta1 demo_tariff) ax_t (Policy.t demo_policy)
    /\ Prem.GrossAnnualPrem b
       = Policy.sum_insured demo_policy * Prem.NormGrossAnnualPrem b.
Proof.
  destruct (factors_run demo_constants (Ok demo_tables) demo_float_str
              demo_policy demo_tariff fresh)
    as [[[[[[ax_t ax_n] dx_x] dx_xn] a]|e] w'] eqn:F;
    [ | vm_compute in F; discriminate ].
  pose proof (f_equal (fun r : Result (Qc * Qc * Qc * Qc * Qc) * World =>
                match fst r with
                | Ok (v, _, _, _, _) => this v
                | Err _ => 0%Q
                end) F) as V.
  vm_compute in V.
  match type of V with
  | ?q = _ =>
      assert (Vt : ax_t = Q2Qc q)
        by (apply Qc_is_canon; simpl; rewrite Qred_correct, V; reflexivity)
  end.
  clear V.
  apply factors_defined_of_run in F.
  destruct (proj1 C1_premium_calculation _ _ _ _ _ _ _ _ _ _ _ _ F)
    as (_ & _ & _ & Hok).
  destruct Hok as (b & Hb & Hn & Hg).
  - rewrite Vt. intros C. apply (f_equal this) in C. vm_compute in C.
    discriminate.
  - vm_compute. discriminate.
  - rewrite Vt. intros C. apply (f_equal this) in C. vm_compute in C.
    discriminate.
  - exists ax_t, ax_n, dx_x, dx_xn, a, w', b.
    split; [ exact F | ]. split; [ exact Hb | ].
    split; [ exact Hn | ]. rewrite Hg, Hn. reflexivity.
Defined.

(** C1 as stated fails for [calc_premium_calculation]: with a payment
    frequency of zero the factors are defined and the denominator is not
    zero, and yet the call raises a division by zero. *)
Lemma C1_counterexample :
  exists ax_t ax_n dx_x dx_xn a w' msg,
    factors_defined demo_constants (Ok demo_tables) demo_float_str
      demo_policy_no_freq demo_tariff fresh ax_t ax_n dx_x dx_xn a w'
    /\ premium_denominator (Tariff.alpha demo_tariff)
         (Tariff.beta1 demo_tariff) ax_t (Policy.t demo_policy_no_freq) <> 0
    /\ calc_premium_calculation demo_constants (Ok demo_tables)
         demo_float_str demo_policy_no_freq demo_tariff fresh
       = (Err (ZeroDivisionError msg), w').
Proof.
  destruct (factors_run demo_constants (Ok demo_tables) demo_float_str
              demo_policy_no_freq demo_tariff fresh)
    as [[[[[[ax_t ax_n] dx_x] dx_xn] a]|e] w'] eqn:F;
    [ | vm_compute in F; discriminate ].
  pose proof (f_equal (fun r : Result (Qc * Qc * Qc * Qc * Qc) * World =>
                match fst r with
                | Ok (v, _, _, _, _) => this v
                | Err _ => 0%Q
                end) F) as V.
  vm_compute in V.
  match type of V with
  | ?q = _ =>
      assert (Vt : ax_t = Q2Qc q)
        by (apply Qc_is_canon; simpl; rewrite Qred_correct, V; reflexivity)
  end.
  clear V.
  apply factors_defined_of_run in F.
  assert (Hden : premium_denominator (Tariff.alpha demo_tariff)
                   (Tariff.beta1 demo_tariff) ax_t
                   (Policy.t demo_policy_no_freq) <> 0).
  { rewrite Vt. intros C. apply (f_equal this) in C. vm_compute in C.
    discriminate. }
  destruct (proj1 C1_premium_calculation _ _ _ _ _ _ _ _ _ _ _ _ F)
    as (_ & _ & Hbad & _).
  destruct (Hbad Hden (or_introl eq_refl)) as [(msg & Hmsg) Hw].
  exists ax_t, ax_n, dx_x, dx_xn, a, w', msg.
  split; [ exact F | ]. split; [ exact Hden | ].
  destruct (calc_premium_calculation demo_constants (Ok demo_tables)
              demo_float_str demo_policy_no_freq demo_tariff fresh)
    as [r wr]. simpl in Hmsg, Hw. now subst.
Qed.
